(** * LightCurve: loading and detrending light curves

    A shallow embedding of the [LightCurve] class of the object-oriented
    programming notebook (final, documented version of the class):
    [__init__], [plot], the class method [from_txt] and [clean].

    The class is a thin layer over NumPy, so the embedding has two parts.

    - The Python part is modelled as written: a [LightCurve] instance is a
      mutable object whose attributes hold _references_ to NumPy arrays;
      instances and array buffers both live in a store, and [clean] updates
      the buffers in place ([/=]).  Exceptions abort a method and keep
      whatever had been mutated before they were raised.

    - The NumPy calls ([loadtxt], indexing [data[i, :]], [polyfit],
      [polyval], in-place division) follow NumPy's documented behaviour.
      Arithmetic on float64 and the LAPACK least-squares solve are taken
      abstractly, as an interface [Float64]; every general theorem holds
      for every implementation of that interface.  What [plt.errorbar]
      raises on given data is taken abstractly too, as an interface
      [Pyplot].  A second part of the file instantiates the interfaces
      with exact rational arithmetic, to run the methods on concrete light
      curves; equalities obtained there hold of the float64 program up to
      rounding only. *)

From Stdlib Require Import ZArith QArith.
From stdpp Require Import base option list gmap strings.

Set Default Proof Using "Type".

(** ** Python exceptions raised by the modelled code *)

Inductive exn :=
  | OSError        (* file cannot be opened *)
  | ValueError     (* loadtxt: bad literal / ragged rows; polyfit: deg < 0;
                      broadcasting failure *)
  | IndexError     (* data[i, :] on an array of the wrong shape *)
  | TypeError      (* polyfit: empty x, length mismatch; arithmetic on None *)
  | LinAlgError    (* lstsq: SVD did not converge *)
  | AttributeError (* method called on something that is not a LightCurve *).

(** ** The numeric interface *)

(** [F] stands for float64.  [lstsq a b] is the least-squares solve inside
    [numpy.polyfit] (column scaling, [numpy.linalg.lstsq], unscaling); it
    answers [None] when LAPACK raises [LinAlgError]. *)
Class Float64 (F : Type) := {
  fzero : F;
  fone : F;
  fadd : F → F → F;
  fmul : F → F → F;
  fdiv : F → F → F;
  lstsq : list (list F) → list F → option (list F);
}.

(** ** The plotting interface *)

(** [errorbar_raises x y yerr] is the exception that
    [plt.errorbar(x, y, yerr, fmt='o')] raises on these data, if it
    raises one; an attribute that is [None] is passed as [None]. *)
Class Pyplot (F : Type) := {
  errorbar_raises :
    option (list F) → option (list F) → option (list F) → option exn;
}.

(** Store addresses, for array buffers and for instances. *)
Abbreviation loc := positive.

(** ** Data model *)

(** The attributes set by [__init__].  The four sequence attributes hold
    either [None] (the default of the keyword argument) or a reference to a
    one-dimensional float64 array. *)
Record LightCurve := mkLightCurve {
  times : option loc;
  fluxes : option loc;
  uncertainties : option loc;
  flags : option loc;
  name : option string;
  cleaned : bool;
}.

(** A text file, as [loadtxt] sees it: lines, each split at whitespace into
    fields; a field is either a float literal (with its value) or some
    other token ([None]).  Blank lines have no field. *)
Abbreviation file F := (list (list (option F))).

(** The n-dimensional array returned by [loadtxt] (at most two
    dimensions). *)
Inductive ndarray (F : Type) :=
  | Arr0 (x : F)                  (* shape ()      *)
  | Arr1 (v : list F)             (* shape (n,)    *)
  | Arr2 (rows : list (list F)).  (* shape (r, c)  *)
Arguments Arr0 {F} x.
Arguments Arr1 {F} v.
Arguments Arr2 {F} rows.

(** Calls received by the plotting library. *)
Inductive plot_cmd (F : Type) :=
  | Errorbar (x y yerr : option (list F))
  | Xlabel (s : string)
  | Ylabel (s : string)
  | Title (s : option string).
Arguments Errorbar {F} x y yerr.
Arguments Xlabel {F} s.
Arguments Ylabel {F} s.
Arguments Title {F} s.

(** The state the methods run in. *)
Record world (F : Type) := mkWorld {
  files : gmap string (file F);     (* file system, only read *)
  arrays : gmap loc (list F);       (* buffers of the float64 arrays *)
  objects : gmap loc LightCurve;    (* LightCurve instances *)
  canvas : list (plot_cmd F);       (* what matplotlib was asked to draw *)
}.
Arguments mkWorld {F} files arrays objects canvas.
Arguments files {F} w.
Arguments arrays {F} w.
Arguments objects {F} w.
Arguments canvas {F} w.

Section Model.
Context {F : Type} {np : Float64 F} {plt : Pyplot F}.

Definition set_arrays (f : gmap loc (list F) → gmap loc (list F))
    (w : world F) : world F :=
  mkWorld (files w) (f (arrays w)) (objects w) (canvas w).

Definition set_objects (f : gmap loc LightCurve → gmap loc LightCurve)
    (w : world F) : world F :=
  mkWorld (files w) (arrays w) (f (objects w)) (canvas w).

Definition set_canvas (f : list (plot_cmd F) → list (plot_cmd F))
    (w : world F) : world F :=
  mkWorld (files w) (arrays w) (objects w) (f (canvas w)).

(** ** State and exception monad *)

Definition M (A : Type) : Type := world F → (exn + A) * world F.

Definition ret {A} (a : A) : M A := λ w, (inr a, w).
Definition raise {A} (e : exn) : M A := λ w, (inl e, w).
Definition bind {A B} (m : M A) (k : A → M B) : M B :=
  λ w, match m w with
       | (inl e, w') => (inl e, w')
       | (inr a, w') => k a w'
       end.
Definition lift {A} (r : exn + A) : M A :=
  match r with inl e => raise e | inr a => ret a end.

Notation "'let*' x ':=' m 'in' k" := (bind m (λ x, k))
  (at level 10, x binder, k at level 200).

(** ** NumPy *)

(** [numpy.loadtxt(path)] with its defaults.  Blank lines are skipped,
    every field must be a float literal and every row must have as many
    columns as the first ([ValueError] otherwise).  With the default
    [ndmin=0] axes of length one are squeezed out of the result. *)
Definition parse_row (fields : list (option F)) : option (list F) :=
  mapM id fields.

Definition parse_rows (lines : file F) : option (list (list F)) :=
  mapM parse_row (filter (λ fields, fields ≠ []) lines).

Definition rectangular (tbl : list (list F)) : bool :=
  match tbl with
  | [] => true
  | r :: rest => forallb (λ r', Nat.eqb (length r') (length r)) rest
  end.

Definition read_table (lines : file F) : exn + list (list F) :=
  match parse_rows lines with
  | None => inl ValueError
  | Some tbl => if rectangular tbl then inr tbl else inl ValueError
  end.

Definition squeeze (tbl : list (list F)) : ndarray F :=
  match tbl with
  | [] => Arr1 []
  | [[x]] => Arr0 x
  | [r] => Arr1 r
  | ([_] :: _) => Arr1 (concat tbl)
  | _ => Arr2 tbl
  end.

Definition loadtxt (path : string) : M (ndarray F) := λ w,
  match files w !! path with
  | None => (inl OSError, w)
  | Some lines =>
      match read_table lines with
      | inl e => (inl e, w)
      | inr tbl => (inr (squeeze tbl), w)
      end
  end.

(** [data[i, :]]: two indices need a two-dimensional array, and [i] must be
    a row of it. *)
Definition getrow (data : ndarray F) (i : nat) : exn + list F :=
  match data with
  | Arr2 rows =>
      match rows !! i with
      | Some r => inr r
      | None => inl IndexError
      end
  | _ => inl IndexError
  end.

(** [numpy.vander(x, n)]: one row [x^(n-1), ..., x, 1] per point, the
    powers obtained by repeated multiplication. *)
Fixpoint fpow (x : F) (k : nat) : F :=
  match k with
  | O => fone
  | S O => x
  | S k' => fmul (fpow x k') x
  end.

Definition vander (x : list F) (n : nat) : list (list F) :=
  map (λ xi, map (fpow xi) (rev (seq 0 n))) x.

(** [numpy.polyfit(x, y, deg)] on one-dimensional float arrays: the
    argument checks of the function, in their order, then the solve. *)
Definition polyfit (x y : list F) (deg : Z) : exn + list F :=
  let order := Z.to_nat (deg + 1) in
  if (deg <? 0)%Z then inl ValueError
  else if Nat.eqb (length x) 0 then inl TypeError
  else if negb (Nat.eqb (length x) (length y)) then inl TypeError
  else match lstsq (vander x order) y with
       | Some c => inr c
       | None => inl LinAlgError
       end.

(** [numpy.polyval(p, x)]: Horner's rule at every point,
    [y = zeros_like(x); for pv in p: y = y * x + pv]. *)
Definition horner (p : list F) (xi : F) : F :=
  fold_left (λ y pv, fadd (fmul y xi) pv) p fzero.

Definition polyval (p x : list F) : list F := map (horner p) x.

(** [a /= b] on one-dimensional arrays: element-wise when the lengths
    agree, [b] broadcast when it has a single element, and [ValueError]
    when [b] cannot be broadcast to the shape of [a]. *)
Definition true_divide_into (a b : list F) : exn + list F :=
  if Nat.eqb (length b) (length a) then inr (zip_with fdiv a b)
  else match b with
       | [b0] => inr (map (λ ai, fdiv ai b0) a)
       | _ => inl ValueError
       end.

(** ** Store access *)

(** A new array buffer. *)
Definition alloc (a : list F) : M loc := λ w,
  let l := fresh (dom (arrays w)) in
  (inr l, set_arrays (insert l a) w).

(** The array behind an attribute, as NumPy reads it for arithmetic. *)
Definition read_array (r : option loc) : M (list F) := λ w,
  match r with
  | None => (inl TypeError, w)
  | Some l =>
      match arrays w !! l with
      | Some a => (inr a, w)
      | None => (inl TypeError, w)
      end
  end.

(** [attr /= b] where the attribute holds the reference [r]: the buffer is
    overwritten, the attribute keeps pointing to it. *)
Definition itruediv (r : option loc) (b : list F) : M unit := λ w,
  match r with
  | None => (inl TypeError, w)
  | Some l =>
      match arrays w !! l with
      | None => (inl TypeError, w)
      | Some a =>
          match true_divide_into a b with
          | inl e => (inl e, w)
          | inr a' => (inr tt, set_arrays (insert l a') w)
          end
      end
  end.

Definition get_object (self : loc) : M LightCurve := λ w,
  match objects w !! self with
  | Some lc => (inr lc, w)
  | None => (inl AttributeError, w)
  end.

Definition deref (w : world F) (r : option loc) : option (list F) :=
  r ≫= λ l, arrays w !! l.

Definition draw (c : world F → plot_cmd F) : M unit := λ w,
  (inr tt, set_canvas (λ cs, cs ++ [c w]) w).

(** ** The class *)

(** [LightCurve(times=..., fluxes=..., uncertainties=..., flags=...,
    name=...)]: a new instance with the five attributes as given and
    [cleaned = False]. *)
Definition __init__ (times fluxes uncertainties flags : option loc)
    (name : option string) : M loc := λ w,
  let self := fresh (dom (objects w)) in
  (inr self,
   set_objects
     (insert self (mkLightCurve times fluxes uncertainties flags name false))
     w).

(** [plt.errorbar(x, y, yerr, fmt='o')]: the call is recorded unless the
    library raises. *)
Definition errorbar (x y yerr : option (list F)) : M unit := λ w,
  match errorbar_raises x y yerr with
  | Some e => (inl e, w)
  | None => (inr tt, set_canvas (λ cs, cs ++ [Errorbar x y yerr]) w)
  end.

Definition plot (self : loc) : M unit :=
  let* lc := get_object self in
  let* _ := (λ w, errorbar (deref w (times lc)) (deref w (fluxes lc))
                           (deref w (uncertainties lc)) w) in
  let* _ := draw (λ _, Xlabel "Time") in
  let* _ := draw (λ _, Ylabel "Flux") in
  draw (λ _, Title (name lc)).

(** The rows of [data] are views that never overlap; each gets a buffer of
    its own when it is stored in the new instance. *)
Definition from_txt (path : string) : M loc :=
  let* data := loadtxt path in
  let* times := lift (getrow data 0) in
  let* fluxes := lift (getrow data 1) in
  let* uncertainties := lift (getrow data 2) in
  let* flags := lift (getrow data 3) in
  let* t := alloc times in
  let* f := alloc fluxes in
  let* u := alloc uncertainties in
  let* g := alloc flags in
  __init__ (Some t) (Some f) (Some u) (Some g) None.

Definition set_cleaned (self : loc) (b : bool) : M unit := λ w,
  match objects w !! self with
  | None => (inl AttributeError, w)
  | Some lc =>
      (inr tt,
       set_objects
         (insert self (mkLightCurve (times lc) (fluxes lc) (uncertainties lc)
                                    (flags lc) (name lc) b))
         w)
  end.

Definition clean (self : loc) (order : Z) : M unit :=
  let* lc := get_object self in
  let* x := read_array (times lc) in
  let* y := read_array (fluxes lc) in
  let* poly_params := lift (polyfit x y order) in
  let* x' := read_array (times lc) in
  let best_fit_model := polyval poly_params x' in
  let* _ := itruediv (fluxes lc) best_fit_model in
  let* _ := itruediv (uncertainties lc) best_fit_model in
  set_cleaned self true.

(** ** Vocabulary of the specification *)

(** The attribute [r] holds a sequence of [n] values. *)
Definition seq_len (w : world F) (r : option loc) (n : nat) : Prop :=
  length <$> deref w r = Some n.

(** A light curve with [n] points: the four sequences are there and have
    length [n]. *)
Definition has_points (w : world F) (lc : LightCurve) (n : nat) : Prop :=
  seq_len w (times lc) n ∧ seq_len w (fluxes lc) n ∧
  seq_len w (uncertainties lc) n ∧ seq_len w (flags lc) n.

(** The file parses into a numeric table of [r] rows and [c] columns. *)
Definition parses_as (lines : file F) (r c : nat) : Prop :=
  ∃ tbl, read_table lines = inr tbl ∧ length tbl = r ∧
         Forall (λ row, length row = c) tbl.

(** The attributes of a record other than [cleaned]. *)
Definition forget_cleaned (lc : LightCurve)
    : option loc * option loc * option loc * option loc * option string :=
  (times lc, fluxes lc, uncertainties lc, flags lc, name lc).

(** The text of a numeric table: one line per row, every field a float
    literal. *)
Definition table_text (tbl : list (list F)) : file F :=
  map (map Some) tbl.

(** Modelled from the spec: the writer of the round-trip property ("a
    table written from a record's own (times, fluxes, uncertainties,
    flags)"); the script that writes the sample files is not among the
    sources.  It writes the four sequences as the four rows of the table
    at [path]. *)
Definition to_txt (self : loc) (path : string) : M unit :=
  let* lc := get_object self in
  let* t := read_array (times lc) in
  let* f := read_array (fluxes lc) in
  let* u := read_array (uncertainties lc) in
  let* g := read_array (flags lc) in
  λ w, (inr tt,
        mkWorld (<[path := table_text [t; f; u; g]]> (files w))
                (arrays w) (objects w) (canvas w)).

(** ** The cells that use the class *)

(** [lightcurves = [LightCurve.from_txt(path) for path in lc_paths]]: the
    paths are loaded in order, and the first exception ends the
    comprehension. *)
Fixpoint load_all (lc_paths : list string) : M (list loc) :=
  match lc_paths with
  | [] => ret []
  | path :: rest =>
      let* lightcurve := from_txt path in
      let* lightcurves := load_all rest in
      ret (lightcurve :: lightcurves)
  end.

(** [for lightcurve in lightcurves: lightcurve.clean(); lightcurve.plot()],
    where [clean()] takes its default [order=1]. *)
Fixpoint clean_and_plot_all (lightcurves : list loc) : M unit :=
  match lightcurves with
  | [] => ret tt
  | lightcurve :: rest =>
      let* _ := clean lightcurve 1 in
      let* _ := plot lightcurve in
      clean_and_plot_all rest
  end.

(** The four sequence attributes of a record. *)
Definition footprint (lc : LightCurve) : list (option loc) :=
  [times lc; fluxes lc; uncertainties lc; flags lc].

(** The file at [path] holds a numeric table with at least four rows and
    at least two columns. *)
Definition loadable (fs : gmap string (file F)) (path : string) : Prop :=
  ∃ lines r c, fs !! path = Some lines ∧ parses_as lines r c ∧
               4 ≤ r ∧ 2 ≤ c.

End Model.

(** ** Exact rational arithmetic

    An implementation of [Float64] without rounding, to run the methods
    on concrete light curves: the numbers are rationals kept in lowest
    terms.  It agrees with the float64 program on which exception is
    raised and on which buffers are written; the numbers it computes are
    those of the program up to rounding, so an equality between two of
    them need not hold bit for bit in float64.  There is no overflow, NaN
    or infinity: division by zero yields [0] here, where IEEE arithmetic
    gives an infinity or NaN (without raising either); none of the runs
    below divides by zero. *)
Module Exact.

Definition qadd (a b : Q) : Q := Qred (a + b).
Definition qsub (a b : Q) : Q := Qred (a - b).
Definition qmul (a b : Q) : Q := Qred (a * b).
Definition qdiv (a b : Q) : Q := Qred (a / b).

Definition dot (u v : list Q) : Q := foldr qadd 0%Q (zip_with qmul u v).

Definition mat_vec (a : list (list Q)) (v : list Q) : list Q :=
  map (λ r, dot r v) a.

Definition transpose (ncols : nat) (a : list (list Q)) : list (list Q) :=
  map (λ j, map (λ r, nth j r 0%Q) a) (seq 0 ncols).

(** Gram matrix of the rows of [a]. *)
Definition gram (a : list (list Q)) : list (list Q) :=
  map (λ r, map (dot r) a) a.

(** Gauss-Jordan elimination on augmented rows; [done] holds the pivot
    rows found so far, each with the column it is the pivot of. *)
Fixpoint find_pivot (j : nat) (rows : list (list Q))
    : option (list Q * list (list Q)) :=
  match rows with
  | [] => None
  | r :: rs =>
      if Qeq_bool (nth j r 0%Q) 0%Q then
        match find_pivot j rs with
        | Some (p, rest) => Some (p, r :: rest)
        | None => None
        end
      else Some (r, rs)
  end.

Definition reduce_by (j : nat) (p r : list Q) : list Q :=
  zip_with (λ ri pi, qsub ri (qmul (nth j r 0%Q) pi)) r p.

Fixpoint eliminate (ncols j : nat) (done : list (nat * list Q))
    (todo : list (list Q)) : list (nat * list Q) :=
  match ncols with
  | O => done
  | S k =>
      match find_pivot j todo with
      | None => eliminate k (S j) done todo
      | Some (p, rest) =>
          let p' := map (λ a, qdiv a (nth j p 0%Q)) p in
          eliminate k (S j)
            ((j, p') :: map (λ kr, (kr.1, reduce_by j p' kr.2)) done)
            (map (reduce_by j p') rest)
      end
  end.

(** A solution of a consistent system, free unknowns set to zero. *)
Definition solve (n : nat) (rows : list (list Q)) : list Q :=
  let done := eliminate n 0 [] rows in
  map (λ j, match find (λ kr, Nat.eqb kr.1 j) done with
            | Some kr => List.last kr.2 0%Q
            | None => 0%Q
            end)
      (seq 0 n).

(** The solve of [numpy.polyfit], without rounding.  [polyfit] divides
    every column of [a] by its Euclidean norm, asks
    [numpy.linalg.lstsq] for the least-squares solution of minimal norm
    of the scaled system, and divides the result by the norms.  A column
    of zeros has norm 0: the division yields NaN and LAPACK reports
    failure ([LinAlgError]).  Otherwise the result is the least-squares
    solution [c] that minimises [Σ s2_j c_j²], where [s2_j] is the
    squared norm of column [j]: [c_j = (aᵀ z)_j / s2_j] with
    [g² z = g b] and [g = a diag(1/s2) aᵀ]; the norms themselves, which
    are square roots, are not needed.  (LAPACK also drops singular
    values below a relative cut-off; without rounding this only matters
    for systems that are rank-deficient, where it gives the same
    solution.) *)
Definition exact_lstsq (a : list (list Q)) (b : list Q)
    : option (list Q) :=
  let at_ := transpose (length (hd [] a)) a in
  let s2 := map (λ col, dot col col) at_ in
  if existsb (λ v, Qeq_bool v 0%Q) s2 then None
  else
    let g := map (λ r, map (λ r', dot (zip_with qdiv r s2) r') a) a in
    let g2 := gram g in
    let z := solve (length a)
                   (zip_with (λ r v, r ++ [v]) g2 (mat_vec g b)) in
    Some (zip_with qdiv (mat_vec at_ z) s2).

(** [c] solves the normal equations [aᵀ (a c - b) = 0], that is, it is a
    least-squares solution of [a c = b]. *)
Definition normal_equations (a : list (list Q)) (b c : list Q) : bool :=
  forallb (λ v, Qeq_bool v 0%Q)
    (mat_vec (transpose (length (hd [] a)) a)
             (zip_with qsub (mat_vec a c) b)).

#[export] Instance exact : Float64 Q := {|
  fzero := 0%Q;
  fone := 1%Q;
  fadd := qadd;
  fmul := qmul;
  fdiv := qdiv;
  lstsq := exact_lstsq;
|}.

(** The checks of [Axes.errorbar] on its data: [x] and [y] are made
    one-dimensional ([None] becomes an array of one element) and must
    have the same size; [yerr], when given, must be broadcastable to the
    size of [y] and must not contain a negative value.  Each violation
    is a [ValueError]. *)
Definition size1 (o : option (list Q)) : nat :=
  match o with
  | Some a => length a
  | None => 1
  end.

Definition exact_errorbar (x y yerr : option (list Q)) : option exn :=
  if negb (Nat.eqb (size1 x) (size1 y)) then Some ValueError
  else match yerr with
       | None => None
       | Some err =>
           if negb (Nat.eqb (length err) (size1 y) || Nat.eqb (length err) 1)
           then Some ValueError
           else if existsb (λ v, negb (Qle_bool 0%Q v)) err
                then Some ValueError
                else None
       end.

#[export] Instance exact_pyplot : Pyplot Q := {|
  errorbar_raises := exact_errorbar;
|}.

End Exact.

Import Exact.

(** ** Concrete light curves (exact arithmetic) *)

Definition a_file (path : string) (tbl : list (list Q)) : world Q :=
  mkWorld {[ path := table_text tbl ]} ∅ ∅ [].

(** The table of the specification's scenario. *)
Definition flat_table : list (list Q) :=
  [[0; 1; 2]; [1; 1; 1]; [1 # 10; 1 # 10; 1 # 10]; [0; 0; 0]]%Q.

(** A light curve with a single observation. *)
Definition one_point_table : list (list Q) := [[0]; [1]; [1 # 10]; [0]]%Q.

(** Tables with three and with five rows. *)
Definition three_rows : list (list Q) :=
  [[0; 1; 2]; [1; 1; 1]; [1 # 10; 1 # 10; 1 # 10]]%Q.
Definition five_rows : list (list Q) :=
  [[0; 1]; [1; 1]; [1 # 10; 1 # 10]; [0; 0]; [7; 7]]%Q.
Definition five_rows_one_column : list (list Q) :=
  [[0]; [1]; [1 # 10]; [0]; [7]]%Q.

(** A world with given arrays at addresses 1, 2, ... and instances at
    addresses 1, 2, ... *)
Definition a_world (arrs : list (list Q)) (objs : list LightCurve)
    : world Q :=
  mkWorld ∅ (list_to_map (zip (Pos.of_nat <$> seq 1 (length arrs)) arrs))
          (list_to_map (zip (Pos.of_nat <$> seq 1 (length objs)) objs)) [].

Definition record (t f u g : loc) : LightCurve :=
  mkLightCurve (Some t) (Some f) (Some u) (Some g) None false.

(** The scenario table in a file, and the state after loading it and after
    detrending it once with order 0. *)
Definition w_flat : world Q := a_file "lc_0.txt" flat_table.
Definition w_flat_loaded : world Q := (from_txt "lc_0.txt" w_flat).2.
Definition w_flat_cleaned : world Q := (clean 1 0 w_flat_loaded).2.

(** A directly constructed light curve with two points. *)
Definition w_two : world Q :=
  a_world [[0; 1]; [2; 4]; [1; 1]; [0; 0]]%Q [record 1 2 3 4].

(** The same array passed as fluxes and as uncertainties. *)
Definition w_shared_fluxes : world Q :=
  a_world [[0; 1]; [2; 2]; [0; 0]]%Q [record 1 2 2 3].

(** The same array passed as times and as fluxes. *)
Definition w_shared_times : world Q :=
  a_world [[2; 4]; [1; 1]; [0; 0]]%Q [record 1 1 2 3].

(** A light curve with a single observation, directly constructed. *)
Definition w_one : world Q :=
  a_world [[0]; [1]; [1 # 10]; [0]]%Q [record 1 2 3 4].

(** Another one, and the state after detrending it once with order 0. *)
Definition w_single : world Q :=
  a_world [[0]; [2]; [1]; [0]]%Q [record 1 2 3 4].
Definition w_single_cleaned : world Q := (clean 1 0 w_single).2.

(** A light curve that is not a straight line, and the state after
    detrending it once with order 1. *)
Definition w_curved : world Q :=
  a_world [[0; 1; 2]; [1; 2; 4]; [1; 1; 1]; [0; 0; 0]]%Q [record 1 2 3 4].
Definition w_curved_cleaned : world Q := (clean 1 1 w_curved).2.

(** A table whose third row has a negative uncertainty. *)
Definition negative_uncertainty : list (list Q) :=
  [[0; 1; 2]; [1; 1; 1]; [1 # 10; -1 # 10; 1 # 10]; [0; 0; 0]]%Q.

(** Two records, each with four arrays of its own. *)
Definition w_pair : world Q :=
  a_world [[0; 1]; [2; 4]; [1; 1]; [0; 0];
           [0; 1]; [3; 3]; [1; 1]; [0; 0]]%Q
          [record 1 2 3 4; record 5 6 7 8].

(** A record built with times and fluxes only, and one whose
    uncertainties are too short. *)
Definition w_no_uncertainties : world Q :=
  a_world [[0; 1]; [2; 4]]%Q
          [mkLightCurve (Some 1%positive) (Some 2%positive) None None None
                        false].
Definition w_short_uncertainties : world Q :=
  a_world [[0; 1; 2]; [2; 4; 6]; [1; 1]]%Q
          [mkLightCurve (Some 1%positive) (Some 2%positive)
                        (Some 3%positive) None None false].

(** A directory with two light-curve files, the paths of a batch, and the
    state after loading the batch. *)
Definition w_batch : world Q :=
  mkWorld (list_to_map [("lc_0.txt"%string, table_text flat_table);
                        ("lc_1.txt"%string, table_text five_rows)])
          ∅ ∅ [].
Definition batch_paths : list string := ["lc_0.txt"; "lc_1.txt"; "lc_0.txt"]%string.
Definition w_batch_loaded : world Q := (load_all batch_paths w_batch).2.

(** * Properties *)

Section Properties.
Context {F : Type} {np : Float64 F} {plt : Pyplot F}.
Implicit Types (w : world F) (lc : LightCurve) (tbl : list (list F)).

Lemma NoDup4 {A} (a b c d : A) :
  NoDup [a; b; c; d] →
  a ≠ b ∧ a ≠ c ∧ a ≠ d ∧ b ≠ c ∧ b ≠ d ∧ c ≠ d.
Proof.
  intros (Na & (Nb & (Nc & _)%NoDup_cons)%NoDup_cons)%NoDup_cons.
  split_and!; intros ->;
    solve [apply Na, list_elem_of_In; simpl; auto
          |apply Nb, list_elem_of_In; simpl; auto
          |apply Nc, list_elem_of_In; simpl; auto].
Qed.

(** ** Reading tables *)

Lemma parse_row_literals (r : list F) : parse_row (map Some r) = Some r.
Proof. unfold parse_row. by apply mapM_fmap_Some. Qed.

Lemma parse_rows_table_text tbl :
  Forall (λ r, r ≠ []) tbl → parse_rows (table_text tbl) = Some tbl.
Proof.
  intros Hne. unfold parse_rows, table_text.
  assert (Hf : filter (λ fields : list (option F), fields ≠ [])
                 (map (map Some) tbl) = map (map Some) tbl).
  { induction Hne as [|r tbl Hr _ IH]; [done|]. simpl.
    rewrite filter_cons_True; [by rewrite IH|].
    by destruct r. }
  rewrite Hf. apply mapM_fmap_Some, parse_row_literals.
Qed.

Lemma rectangular_same_length tbl n :
  Forall (λ r, length r = n) tbl → rectangular tbl = true.
Proof.
  intros Hall. destruct tbl as [|r rest]; [done|]. simpl.
  apply Forall_cons in Hall as [Hr Hrest].
  apply Is_true_true, forallb_True.
  eapply Forall_impl; [exact Hrest|]. simpl. intros r' Hr'.
  apply Is_true_true, Nat.eqb_eq. congruence.
Qed.

Lemma read_table_text tbl n :
  1 ≤ n → Forall (λ r, length r = n) tbl →
  read_table (table_text tbl) = inr tbl.
Proof.
  intros Hn Hall. unfold read_table.
  rewrite parse_rows_table_text.
  - by rewrite (rectangular_same_length tbl n).
  - eapply Forall_impl; [exact Hall|]. simpl. intros [|??] ?; simpl in *; [lia|done].
Qed.

Lemma read_table_rectangular (lines : file F) tbl r :
  read_table lines = inr tbl → r ∈ tbl → length r = length (hd [] tbl).
Proof.
  unfold read_table. destruct (parse_rows lines) as [tbl'|]; [|done].
  destruct (rectangular tbl') eqn:Hrect; [|done].
  intros [= ->] Hin. destruct tbl as [|r0 rest]; [by apply elem_of_nil in Hin|].
  simpl in *. apply elem_of_cons in Hin as [->|Hin]; [done|].
  apply Is_true_true, forallb_True in Hrect.
  rewrite Forall_forall in Hrect. specialize (Hrect r Hin).
  by apply Is_true_true, Nat.eqb_eq in Hrect.
Qed.

(** ** The loader *)

(** What [from_txt] builds from a table of at least four rows and at
    least two columns. *)
Lemma from_txt_rows w path lines r0 r1 r2 r3 rest :
  files w !! path = Some lines →
  read_table lines = inr (r0 :: r1 :: r2 :: r3 :: rest) →
  2 ≤ length r0 →
  ∃ self lt lf lu lg w',
    from_txt path w = (inr self, w') ∧
    objects w !! self = None ∧
    objects w' =
      <[self := mkLightCurve (Some lt) (Some lf) (Some lu) (Some lg)
                             None false]> (objects w) ∧
    arrays w ⊆ arrays w' ∧
    arrays w' = <[lg:=r3]> (<[lu:=r2]> (<[lf:=r1]> (<[lt:=r0]> (arrays w)))) ∧
    arrays w' !! lt = Some r0 ∧ arrays w' !! lf = Some r1 ∧
    arrays w' !! lu = Some r2 ∧ arrays w' !! lg = Some r3 ∧
    NoDup [lt; lf; lu; lg] ∧
    files w' = files w ∧ canvas w' = canvas w.
Proof.
  intros Hfile Htbl Hlen.
  unfold from_txt, bind, loadtxt. rewrite Hfile, Htbl.
  assert (Hsq : squeeze (r0 :: r1 :: r2 :: r3 :: rest)
                = Arr2 (r0 :: r1 :: r2 :: r3 :: rest)).
  { destruct r0 as [|a [|b r0]]; simpl in *; [lia|lia|done]. }
  rewrite Hsq. simpl.
  set (lt := fresh (dom (arrays w))).
  set (m1 := <[lt:=r0]> (arrays w)).
  set (lf := fresh (dom m1)).
  set (m2 := <[lf:=r1]> m1).
  set (lu := fresh (dom m2)).
  set (m3 := <[lu:=r2]> m2).
  set (lg := fresh (dom m3)).
  assert (Ht : arrays w !! lt = None) by apply not_elem_of_dom, is_fresh.
  assert (Hf : m1 !! lf = None) by apply not_elem_of_dom, is_fresh.
  assert (Hu : m2 !! lu = None) by apply not_elem_of_dom, is_fresh.
  assert (Hg : m3 !! lg = None) by apply not_elem_of_dom, is_fresh.
  assert (lf ≠ lt) as Hft.
  { intros E. subst m1. rewrite E, lookup_insert_eq in Hf. done. }
  assert (lu ≠ lf ∧ lu ≠ lt) as [Huf Hut].
  { split; intros E; subst m2 m1; rewrite E in Hu.
    - by rewrite lookup_insert_eq in Hu.
    - rewrite lookup_insert_ne, lookup_insert_eq in Hu; done. }
  assert (lg ≠ lu ∧ lg ≠ lf ∧ lg ≠ lt) as (Hgu & Hgf & Hgt).
  { split_and!; intros E; subst m3 m2 m1; rewrite E in Hg.
    - by rewrite lookup_insert_eq in Hg.
    - rewrite lookup_insert_ne, lookup_insert_eq in Hg; done.
    - rewrite 2!lookup_insert_ne, lookup_insert_eq in Hg; done. }
  exists (fresh (dom (objects w))), lt, lf, lu, lg. eexists.
  split; [reflexivity|]. simpl.
  split; [apply not_elem_of_dom, is_fresh|].
  split; [done|].
  split.
  { etrans; [apply (insert_subseteq _ lt r0 Ht)|].
    etrans; [apply (insert_subseteq _ lf r1 Hf)|].
    etrans; [apply (insert_subseteq _ lu r2 Hu)|].
    apply (insert_subseteq _ lg r3 Hg). }
  fold lt m1 lf m2 lu m3 lg. subst m3 m2 m1.
  split_and!; try done.
  - by rewrite 3!lookup_insert_ne, lookup_insert_eq.
  - by rewrite 2!lookup_insert_ne, lookup_insert_eq.
  - by rewrite lookup_insert_ne, lookup_insert_eq.
  - by rewrite lookup_insert_eq.
  - repeat (apply NoDup_cons;
            split; [rewrite ?elem_of_cons, elem_of_nil;
                    intros Hx; decompose [or] Hx; congruence|]).
    apply NoDup_nil_2.
Qed.

Lemma read_table_error (lines : file F) e :
  read_table lines = inl e → e = ValueError.
Proof.
  unfold read_table. destruct (parse_rows lines) as [tbl|]; [|congruence].
  destruct (rectangular tbl); congruence.
Qed.

Lemma read_table_nonempty (lines : file F) tbl :
  read_table lines = inr tbl → Forall (λ r, r ≠ []) tbl.
Proof.
  unfold read_table. destruct (parse_rows lines) as [tbl'|] eqn:Hp; [|done].
  destruct (rectangular tbl'); [|done]. intros [= ->].
  unfold parse_rows in Hp. apply mapM_Some in Hp.
  assert (Hsrc : Forall (λ fields : list (option F), fields ≠ [])
                   (filter (λ fields, fields ≠ []) lines)).
  { apply Forall_forall. intros x Hx. by apply list_elem_of_filter in Hx as [? _]. }
  induction Hp as [|x y xs ys Hxy _ IH]; [done|].
  apply Forall_cons in Hsrc as [Hx Hxs].
  constructor; [|by apply IH].
  unfold parse_row in Hxy. apply length_mapM in Hxy.
  destruct x; [done|]. by destruct y.
Qed.

Lemma read_table_parses (lines : file F) tbl :
  read_table lines = inr tbl →
  parses_as lines (length tbl) (length (hd [] tbl)).
Proof.
  intros Htbl. exists tbl. split_and!; [done..|].
  apply Forall_forall. intros r Hr. by eapply read_table_rectangular.
Qed.

(** Without four rows of at least two columns the indexing fails, before
    anything is allocated. *)
Lemma from_txt_wrong_shape w path lines tbl :
  files w !! path = Some lines →
  read_table lines = inr tbl →
  length tbl < 4 ∨ length (hd [] tbl) < 2 →
  from_txt path w = (inl IndexError, w).
Proof.
  intros Hfile Htbl Hshape.
  pose proof (read_table_nonempty _ _ Htbl) as Hne.
  unfold from_txt, bind, loadtxt. rewrite Hfile, Htbl.
  destruct tbl as [|r0 tbl]; [done|].
  apply Forall_cons in Hne as [Hr0 _].
  destruct r0 as [|a [|b r0]]; [done| |].
  - (* one column: the result is one-dimensional *)
    by destruct tbl.
  - destruct Hshape as [Hrows|Hcols]; [|simpl in Hcols; lia].
    destruct tbl as [|r1 [|r2 [|r3 rest]]]; simpl in *; done || lia.
Qed.

(** The loader on a table of at least four rows of [n ≥ 2] columns, in
    the vocabulary of the specification.  The last conjunct says that the
    only new arrays are the four sequences of the record. *)
Lemma from_txt_accepts w path r0 r1 r2 r3 rest n :
  files w !! path = Some (table_text (r0 :: r1 :: r2 :: r3 :: rest)) →
  Forall (λ r, length r = n) (r0 :: r1 :: r2 :: r3 :: rest) →
  2 ≤ n →
  ∃ self lc w',
    from_txt path w = (inr self, w') ∧
    objects w !! self = None ∧
    objects w' = <[self := lc]> (objects w) ∧
    deref w' (times lc) = Some r0 ∧ deref w' (fluxes lc) = Some r1 ∧
    deref w' (uncertainties lc) = Some r2 ∧ deref w' (flags lc) = Some r3 ∧
    has_points w' lc n ∧
    cleaned lc = false ∧ name lc = None ∧
    (∀ l, is_Some (arrays w' !! l) →
          is_Some (arrays w !! l) ∨
          Some l ∈ [times lc; fluxes lc; uncertainties lc; flags lc]).
Proof.
  intros Hfile Hall Hn.
  pose proof Hall as Hall'.
  apply Forall_cons in Hall' as (H0 & Hall').
  apply Forall_cons in Hall' as (H1 & Hall').
  apply Forall_cons in Hall' as (H2 & Hall').
  apply Forall_cons in Hall' as (H3 & _).
  destruct (from_txt_rows w path _ r0 r1 r2 r3 rest Hfile)
    as (self & lt & lf & lu & lg & w' & Hrun & Hnew & Hobj & Hsub & Harr &
        Ht & Hf & Hu & Hg & Hnd & _).
  { apply (read_table_text _ n); [lia|done]. }
  { lia. }
  exists self, (mkLightCurve (Some lt) (Some lf) (Some lu) (Some lg) None false), w'.
  unfold has_points, seq_len. simpl. rewrite Ht, Hf, Hu, Hg. simpl.
  split_and!; try done; try congruence.
  intros l Hl. rewrite Harr in Hl. rewrite !elem_of_cons.
  destruct (decide (l = lg)) as [->|?]; [by auto 6|].
  destruct (decide (l = lu)) as [->|?]; [by auto 6|].
  destruct (decide (l = lf)) as [->|?]; [by auto 6|].
  destruct (decide (l = lt)) as [->|?]; [by auto 6|].
  rewrite !lookup_insert_ne in Hl by done. by left.
Qed.

(** C1 (amended).  For every numeric table with exactly four rows of
    [n ≥ 2] columns, [from_txt] returns a new LightCurve whose times,
    fluxes, uncertainties and flags are rows 0, 1, 2 and 3 of the table
    (each of length [n]), whose [cleaned] flag is false and whose name is
    [None]. *)
Theorem from_txt_four_rows w path r0 r1 r2 r3 n :
  files w !! path = Some (table_text [r0; r1; r2; r3]) →
  length r0 = n → length r1 = n → length r2 = n → length r3 = n →
  2 ≤ n →
  ∃ self lc w',
    from_txt path w = (inr self, w') ∧
    objects w !! self = None ∧
    objects w' !! self = Some lc ∧
    deref w' (times lc) = Some r0 ∧ deref w' (fluxes lc) = Some r1 ∧
    deref w' (uncertainties lc) = Some r2 ∧ deref w' (flags lc) = Some r3 ∧
    has_points w' lc n ∧
    cleaned lc = false ∧ name lc = None.
Proof.
  intros Hfile H0 H1 H2 H3 Hn.
  destruct (from_txt_accepts w path r0 r1 r2 r3 [] n Hfile)
    as (self & lc & w' & Hrun & Hnew & Hobj & Hrest); [|done|].
  { by repeat constructor. }
  exists self, lc, w'. rewrite Hobj, lookup_insert_eq.
  destruct Hrest as (?&?&?&?&?&?&?&_). by split_and!.
Qed.

(** C10 (amended).  For every numeric table with more than four rows, all
    of [n ≥ 2] columns, [from_txt] does not fail: it builds a LightCurve
    from rows 0 to 3, and no array is made of the further rows. *)
Theorem from_txt_extra_rows w path r0 r1 r2 r3 r4 rest n :
  files w !! path = Some (table_text (r0 :: r1 :: r2 :: r3 :: r4 :: rest)) →
  Forall (λ r, length r = n) (r0 :: r1 :: r2 :: r3 :: r4 :: rest) →
  2 ≤ n →
  ∃ self lc w',
    from_txt path w = (inr self, w') ∧
    objects w' !! self = Some lc ∧
    deref w' (times lc) = Some r0 ∧ deref w' (fluxes lc) = Some r1 ∧
    deref w' (uncertainties lc) = Some r2 ∧ deref w' (flags lc) = Some r3 ∧
    (∀ l, is_Some (arrays w' !! l) →
          is_Some (arrays w !! l) ∨
          Some l ∈ [times lc; fluxes lc; uncertainties lc; flags lc]).
Proof.
  intros Hfile Hall Hn.
  destruct (from_txt_accepts w path r0 r1 r2 r3 (r4 :: rest) n Hfile Hall Hn)
    as (self & lc & w' & Hrun & Hnew & Hobj & Hrest).
  exists self, lc, w'. rewrite Hobj, lookup_insert_eq.
  destruct Hrest as (?&?&?&?&?&?&?&?). by split_and!.
Qed.

(** C3 (amended).  Whenever the resource does not parse into a numeric
    table with at least four rows and at least two columns (a missing
    file, a field that is not a number, rows of different lengths, fewer
    than four rows such as three, a single column), [from_txt] fails,
    with [OSError], [ValueError] or [IndexError], and leaves the state as
    it was: no record and no array is created. *)
Theorem from_txt_rejects w path :
  (∀ lines r c,
     files w !! path = Some lines → parses_as lines r c → r < 4 ∨ c < 2) →
  ∃ e, from_txt path w = (inl e, w) ∧
       (e = OSError ∨ e = ValueError ∨ e = IndexError).
Proof.
  intros Hshape.
  destruct (files w !! path) as [lines|] eqn:Hfile.
  - destruct (read_table lines) as [e|tbl] eqn:Htbl.
    + exists e. apply read_table_error in Htbl as He. subst e.
      split; [|by auto]. unfold from_txt, bind, loadtxt.
      by rewrite Hfile, Htbl.
    + exists IndexError. split; [|by auto].
      eapply from_txt_wrong_shape; [done..|].
      eapply Hshape; [done|]. by apply read_table_parses.
  - exists OSError. split; [|by auto].
    unfold from_txt, bind, loadtxt. by rewrite Hfile.
Qed.

(** ** NumPy helpers *)

Lemma polyval_length (p x : list F) : length (polyval p x) = length x.
Proof. unfold polyval. apply length_map. Qed.

Lemma true_divide_into_same (a b : list F) :
  length b = length a → true_divide_into a b = inr (zip_with fdiv a b).
Proof.
  intros Hlen. unfold true_divide_into.
  by rewrite (proj2 (Nat.eqb_eq _ _) Hlen).
Qed.

Lemma true_divide_into_length (a b a' : list F) :
  true_divide_into a b = inr a' → length a' = length a.
Proof.
  unfold true_divide_into.
  destruct (Nat.eqb (length b) (length a)) eqn:Hlen.
  - intros [= <-]. apply Nat.eqb_eq in Hlen.
    rewrite length_zip_with. lia.
  - destruct b as [|b0 [|??]]; [done| |done].
    intros [= <-]. apply length_map.
Qed.

(** [polyfit] raises exactly for a negative degree, for no data point, for
    sequences of different lengths, and when the solve itself fails. *)
Lemma polyfit_success (x y : list F) (deg : Z) p :
  polyfit x y deg = inr p ↔
  (0 ≤ deg)%Z ∧ 0 < length x ∧ length x = length y ∧
  lstsq (vander x (Z.to_nat (deg + 1))) y = Some p.
Proof.
  unfold polyfit.
  destruct (Z.ltb_spec deg 0); [split; [done|lia]|].
  destruct (Nat.eqb_spec (length x) 0); [split; [done|lia]|].
  destruct (Nat.eqb_spec (length x) (length y)); simpl; [|split; [done|lia]].
  destruct (lstsq _ y) as [c|].
  - split; [intros [= ->]; split_and!; (done || lia)|].
    by intros (_ & _ & _ & [= ->]).
  - split; [done|]. by intros (_ & _ & _ & ?).
Qed.


(** ** Detrending *)

Lemma deref_Some w r a :
  deref w r = Some a ↔ ∃ l, r = Some l ∧ arrays w !! l = Some a.
Proof.
  unfold deref. destruct r as [l|]; simpl.
  - split; [by eauto|]. by intros (? & [= <-] & ?).
  - split; [done|]. by intros (? & ? & ?).
Qed.

Lemma read_array_deref w r a :
  deref w r = Some a → read_array r w = (inr a, w).
Proof.
  intros (l & -> & Hl)%deref_Some. unfold read_array. by rewrite Hl.
Qed.

(** A failing fit aborts [clean] before anything is written. *)
Lemma clean_fit_fails w self lc t f order e :
  objects w !! self = Some lc →
  deref w (times lc) = Some t → deref w (fluxes lc) = Some f →
  polyfit t f order = inl e →
  clean self order w = (inl e, w).
Proof.
  intros Hself Ht Hf Hfit. unfold clean, bind, get_object.
  rewrite Hself, (read_array_deref _ _ _ Ht), (read_array_deref _ _ _ Hf).
  by rewrite Hfit.
Qed.

(** The state after a successful [clean]: the fluxes buffer is divided by
    the model, then the uncertainties buffer (read after the first
    division), then the flag is set. *)
Lemma clean_runs w self lc lf lu t f u1 order p :
  objects w !! self = Some lc →
  deref w (times lc) = Some t →
  fluxes lc = Some lf → arrays w !! lf = Some f →
  uncertainties lc = Some lu →
  <[lf := zip_with fdiv f (polyval p t)]> (arrays w) !! lu = Some u1 →
  length u1 = length t →
  polyfit t f order = inr p →
  clean self order w =
    (inr tt,
     mkWorld (files w)
       (<[lu := zip_with fdiv u1 (polyval p t)]>
          (<[lf := zip_with fdiv f (polyval p t)]> (arrays w)))
       (<[self := mkLightCurve (times lc) (fluxes lc) (uncertainties lc)
                               (flags lc) (name lc) true]> (objects w))
       (canvas w)).
Proof.
  intros Hself Ht Hlf Hf Hlu Hu1 Hlen Hfit.
  apply polyfit_success in Hfit as Hfit'. destruct Hfit' as (_ & _ & Htf & _).
  unfold clean, bind, get_object.
  rewrite Hself, (read_array_deref _ _ _ Ht).
  rewrite Hlf. unfold read_array at 1. rewrite Hf, Hfit. simpl.
  rewrite (read_array_deref _ _ _ Ht).
  unfold itruediv at 1. rewrite Hf.
  rewrite true_divide_into_same by (rewrite polyval_length; lia).
  rewrite Hlu. unfold itruediv. simpl. rewrite Hu1.
  rewrite true_divide_into_same by (rewrite polyval_length; lia).
  unfold set_cleaned. simpl. by rewrite Hself, Hlf, Hlu.
Qed.

(** ** What the methods may change *)

(** A successful load comes from a table with at least four rows and two
    columns. *)
Lemma from_txt_inv w path self w' :
  from_txt path w = (inr self, w') →
  ∃ lines r0 r1 r2 r3 rest,
    files w !! path = Some lines ∧
    read_table lines = inr (r0 :: r1 :: r2 :: r3 :: rest) ∧
    2 ≤ length r0.
Proof.
  intros Hrun.
  destruct (files w !! path) as [lines|] eqn:Hfile.
  2:{ unfold from_txt, bind, loadtxt in Hrun. by rewrite Hfile in Hrun. }
  destruct (read_table lines) as [e|tbl] eqn:Htbl.
  { unfold from_txt, bind, loadtxt in Hrun. by rewrite Hfile, Htbl in Hrun. }
  destruct (decide (length tbl < 4 ∨ length (hd [] tbl) < 2)) as [Hbad|Hok].
  { by rewrite (from_txt_wrong_shape w path lines tbl) in Hrun. }
  destruct tbl as [|r0 [|r1 [|r2 [|r3 rest]]]]; simpl in Hok; try lia.
  exists lines, r0, r1, r2, r3, rest. split_and!; [done..|lia].
Qed.

(** Loading only adds to the store. *)
Lemma from_txt_effect w path :
  objects w ⊆ objects (from_txt path w).2 ∧
  arrays w ⊆ arrays (from_txt path w).2 ∧
  files (from_txt path w).2 = files w ∧
  canvas (from_txt path w).2 = canvas w.
Proof.
  destruct (from_txt path w) as [[e|self] w'] eqn:Hrun; simpl.
  - destruct (files w !! path) as [lines|] eqn:Hfile.
    2:{ unfold from_txt, bind, loadtxt in Hrun. rewrite Hfile in Hrun.
        by injection Hrun as _ <-. }
    destruct (read_table lines) as [e'|tbl] eqn:Htbl.
    { unfold from_txt, bind, loadtxt in Hrun. rewrite Hfile, Htbl in Hrun.
      by injection Hrun as _ <-. }
    destruct (decide (length tbl < 4 ∨ length (hd [] tbl) < 2)) as [Hbad|Hok].
    { rewrite (from_txt_wrong_shape w path lines tbl) in Hrun by done.
      by injection Hrun as _ <-. }
    destruct tbl as [|r0 [|r1 [|r2 [|r3 rest]]]]; simpl in Hok; try lia.
    destruct (from_txt_rows w path lines r0 r1 r2 r3 rest)
      as (? & ? & ? & ? & ? & ? & Hrun' & _); [done|done|lia|].
    congruence.
  - destruct (from_txt_inv _ _ _ _ Hrun)
      as (lines & r0 & r1 & r2 & r3 & rest & Hfile & Htbl & Hlen).
    destruct (from_txt_rows w path lines r0 r1 r2 r3 rest Hfile Htbl Hlen)
      as (self' & lt & lf & lu & lg & w'' & Hrun' & Hnew & Hobj & Hsub & _ &
          _ & _ & _ & _ & _ & Hfiles & Hcanvas).
    rewrite Hrun in Hrun'. injection Hrun' as <- <-.
    split_and!; [|done..]. rewrite Hobj. by apply insert_subseteq.
Qed.

(** The record made by a successful load has four sequences of one
    length. *)
Lemma from_txt_has_points w path self w' :
  from_txt path w = (inr self, w') →
  ∃ lc n, objects w' !! self = Some lc ∧ has_points w' lc n ∧ 2 ≤ n.
Proof.
  intros Hrun.
  destruct (from_txt_inv _ _ _ _ Hrun)
    as (lines & r0 & r1 & r2 & r3 & rest & Hfile & Htbl & Hlen).
  destruct (from_txt_rows w path lines r0 r1 r2 r3 rest Hfile Htbl Hlen)
    as (self' & lt & lf & lu & lg & w'' & Hrun' & Hnew & Hobj & Hsub & _ &
        Ht & Hf & Hu & Hg & _).
  rewrite Hrun in Hrun'. injection Hrun' as <- <-.
  eexists _, (length r0). rewrite Hobj, lookup_insert_eq.
  split; [done|]. split; [|done].
  assert (Hrect : ∀ r, r ∈ r0 :: r1 :: r2 :: r3 :: rest → length r = length r0).
  { intros r Hr. by apply (read_table_rectangular lines _ r Htbl). }
  unfold has_points, seq_len. simpl. rewrite Ht, Hf, Hu, Hg. simpl.
  split_and!; f_equal; apply Hrect; rewrite !elem_of_cons; auto.
Qed.

(** [__init__] only adds the new instance. *)
Lemma init_effect w t f u g nm :
  let self := (fresh (dom (objects w)) : loc) in
  __init__ t f u g nm w =
    (inr self,
     mkWorld (files w) (arrays w)
             (<[self := mkLightCurve t f u g nm false]> (objects w))
             (canvas w)) ∧
  objects w !! self = None.
Proof. split; [done|]. apply not_elem_of_dom, is_fresh. Qed.

(** [plot] only talks to the plotting library. *)
Lemma plot_effect w self :
  files (plot self w).2 = files w ∧
  arrays (plot self w).2 = arrays w ∧
  objects (plot self w).2 = objects w.
Proof.
  unfold plot, bind, get_object, errorbar.
  destruct (objects w !! self) as [lc|]; [|done].
  by destruct (errorbar_raises _ _ _).
Qed.

Lemma read_array_state r w res w0 :
  read_array r w = (res, w0) → w0 = w.
Proof.
  unfold read_array. destruct r as [l|]; [|congruence].
  destruct (arrays w !! l); congruence.
Qed.

(** In-place division keeps every buffer's length and touches one
    buffer. *)
Lemma itruediv_effect r (b : list F) w :
  files (itruediv r b w).2 = files w ∧
  objects (itruediv r b w).2 = objects w ∧
  canvas (itruediv r b w).2 = canvas w ∧
  (∀ l, length <$> arrays (itruediv r b w).2 !! l = length <$> arrays w !! l) ∧
  (∀ l, Some l ≠ r → arrays (itruediv r b w).2 !! l = arrays w !! l).
Proof.
  unfold itruediv. destruct r as [l0|]; [|done].
  destruct (arrays w !! l0) as [a|] eqn:Ha; [|done].
  destruct (true_divide_into a b) as [e|a'] eqn:Hdiv; [done|]. simpl.
  split_and!; try done.
  - intros l. destruct (decide (l = l0)) as [->|Hne].
    + rewrite lookup_insert_eq, Ha. simpl.
      by rewrite (true_divide_into_length _ _ _ Hdiv).
    + by rewrite lookup_insert_ne.
  - intros l Hl. rewrite lookup_insert_ne; [done|congruence].
Qed.

(** Whatever its outcome, [clean] leaves files and canvas alone, changes
    no attribute other than [cleaned], keeps the length of every buffer,
    and writes to no buffer other than those of the fluxes and of the
    uncertainties of [self]. *)
Lemma clean_effect w self order :
  files (clean self order w).2 = files w ∧
  canvas (clean self order w).2 = canvas w ∧
  (∀ o, o ≠ self → objects (clean self order w).2 !! o = objects w !! o) ∧
  (∀ o, forget_cleaned <$> objects (clean self order w).2 !! o
        = forget_cleaned <$> objects w !! o) ∧
  (∀ l, length <$> arrays (clean self order w).2 !! l
        = length <$> arrays w !! l) ∧
  (∀ lc l, objects w !! self = Some lc →
           Some l ≠ fluxes lc → Some l ≠ uncertainties lc →
           arrays (clean self order w).2 !! l = arrays w !! l).
Proof.
  unfold clean, bind, get_object.
  destruct (objects w !! self) as [lc|] eqn:Hself; [|done].
  destruct (read_array (times lc) w) as [[e|t] w0] eqn:Hr1;
    apply read_array_state in Hr1 as ->; [by split_and!|].
  destruct (read_array (fluxes lc) w) as [[e|f] w0] eqn:Hr2;
    apply read_array_state in Hr2 as ->; [by split_and!|].
  destruct (polyfit t f order) as [e|p]; simpl; [by split_and!|].
  destruct (read_array (times lc) w) as [[e|t'] w0] eqn:Hr3;
    apply read_array_state in Hr3 as ->; [by split_and!|].
  pose proof (itruediv_effect (fluxes lc) (polyval p t') w)
    as (Hf1 & Ho1 & Hc1 & Hl1 & Ha1).
  destruct (itruediv (fluxes lc) (polyval p t') w) as [[e|[]] w1];
    simpl in *.
  { split_and!; try done; [by rewrite Ho1..|].
    intros lc' l [= <-] Hlf _. by apply Ha1. }
  pose proof (itruediv_effect (uncertainties lc) (polyval p t') w1)
    as (Hf2 & Ho2 & Hc2 & Hl2 & Ha2).
  destruct (itruediv (uncertainties lc) (polyval p t') w1) as [[e|[]] w2];
    simpl in *.
  { split_and!.
    - congruence.
    - congruence.
    - intros o _. by rewrite Ho2, Ho1.
    - intros o. by rewrite Ho2, Ho1.
    - intros l. by rewrite Hl2, Hl1.
    - intros lc' l [= <-] Hlf Hlu. by rewrite Ha2, Ha1. }
  unfold set_cleaned. rewrite Ho2, Ho1, Hself. simpl.
  split_and!.
  - congruence.
  - congruence.
  - intros o Hne. rewrite lookup_insert_ne by done. congruence.
  - intros o. destruct (decide (o = self)) as [->|Hne].
    + by rewrite lookup_insert_eq, Hself.
    + rewrite lookup_insert_ne by done. congruence.
  - intros l. by rewrite Hl2, Hl1.
  - intros lc' l [= <-] Hlf Hlu. by rewrite Ha2, Ha1.
Qed.

(** ** Detrending: the statements of the specification *)

Lemma lookup_map {A B} (g : A → B) (l : list A) i :
  map g l !! i = g <$> l !! i.
Proof. revert i. induction l as [|x l IH]; intros [|i]; simpl; auto. Qed.

Lemma divided_lookup (a t p : list F) i ai ti :
  a !! i = Some ai → t !! i = Some ti →
  zip_with fdiv a (polyval p t) !! i = Some (fdiv ai (horner p ti)).
Proof.
  intros Ha Ht. rewrite lookup_zip_with. unfold polyval.
  by rewrite lookup_map, Ha, Ht.
Qed.

Lemma seq_len_deref w r n a :
  seq_len w r n → deref w r = Some a → length a = n.
Proof. unfold seq_len. intros Hn Ha. rewrite Ha in Hn. by injection Hn. Qed.

(** [clean] on a record whose fluxes and uncertainties are distinct
    arrays. *)
Lemma clean_runs_distinct w self lc n t f u order p :
  objects w !! self = Some lc →
  has_points w lc n →
  deref w (times lc) = Some t → deref w (fluxes lc) = Some f →
  deref w (uncertainties lc) = Some u →
  fluxes lc ≠ uncertainties lc →
  polyfit t f order = inr p →
  ∃ lf lu,
    fluxes lc = Some lf ∧ uncertainties lc = Some lu ∧ lf ≠ lu ∧
    arrays w !! lf = Some f ∧ arrays w !! lu = Some u ∧
    clean self order w =
      (inr tt,
       mkWorld (files w)
         (<[lu := zip_with fdiv u (polyval p t)]>
            (<[lf := zip_with fdiv f (polyval p t)]> (arrays w)))
         (<[self := mkLightCurve (times lc) (fluxes lc) (uncertainties lc)
                                 (flags lc) (name lc) true]> (objects w))
         (canvas w)).
Proof.
  intros Hself (Hnt & Hnf & Hnu & _) Ht Hf Hu Hne Hfit.
  apply deref_Some in Hf as Hf'. destruct Hf' as (lf & Hlf & Haf).
  apply deref_Some in Hu as Hu'. destruct Hu' as (lu & Hlu & Hau).
  assert (lf ≠ lu) as Hfu by congruence.
  exists lf, lu. split_and!; try done.
  eapply clean_runs; try done.
  - by rewrite lookup_insert_ne.
  - rewrite (seq_len_deref _ _ _ _ Hnu Hu). symmetry.
    by apply (seq_len_deref w (times lc)).
Qed.

(** Loading a table and detrending the record: the arrays of a loaded
    record are never shared, so on every arithmetic the fluxes and the
    uncertainties are divided once by the model, and times and flags are
    as in the table. *)
Lemma load_then_clean w path r0 r1 r2 r3 rest n order p :
  files w !! path = Some (table_text (r0 :: r1 :: r2 :: r3 :: rest)) →
  Forall (λ r, length r = n) (r0 :: r1 :: r2 :: r3 :: rest) →
  2 ≤ n →
  polyfit r0 r1 order = inr p →
  ∃ self w1 w2 lc,
    from_txt path w = (inr self, w1) ∧
    clean self order w1 = (inr tt, w2) ∧
    objects w2 !! self = Some lc ∧
    cleaned lc = true ∧
    deref w2 (times lc) = Some r0 ∧
    deref w2 (fluxes lc) = Some (zip_with fdiv r1 (polyval p r0)) ∧
    deref w2 (uncertainties lc) = Some (zip_with fdiv r2 (polyval p r0)) ∧
    deref w2 (flags lc) = Some r3.
Proof.
  intros Hfile Hall Hn Hfit.
  pose proof Hall as Hall'.
  apply Forall_cons in Hall' as (H0 & Hall').
  apply Forall_cons in Hall' as (H1 & Hall').
  apply Forall_cons in Hall' as (H2 & _).
  destruct (from_txt_rows w path _ r0 r1 r2 r3 rest Hfile)
    as (self & lt & lf & lu & lg & w1 & Hrun & Hnew & Hobj & Hsub & Harr &
        Ht & Hf & Hu & Hg & Hnd & _).
  { apply (read_table_text _ n); [lia|done]. }
  { lia. }
  apply NoDup4 in Hnd as (Htf & Htu & _ & Hfu & Hfg & Hug).
  set (lc := mkLightCurve (Some lt) (Some lf) (Some lu) (Some lg) None false).
  assert (Hself : objects w1 !! self = Some lc).
  { by rewrite Hobj, lookup_insert_eq. }
  eexists self, w1, _, _. split; [exact Hrun|].
  split.
  { apply (clean_runs w1 self lc lf lu r0 r1 r2 order p); try done.
    - by rewrite lookup_insert_ne.
    - congruence. }
  simpl. rewrite lookup_insert_eq. split; [done|]. simpl.
  split; [done|].
  split_and!.
  - by rewrite !lookup_insert_ne by congruence.
  - by rewrite lookup_insert_ne, lookup_insert_eq by congruence.
  - by rewrite lookup_insert_eq.
  - by rewrite !lookup_insert_ne by congruence.
Qed.

(** C2 (amended).  For every LightCurve with [n] points whose fluxes and
    uncertainties are distinct arrays, and every non-negative order for
    which the least-squares fit succeeds, [clean] fits a polynomial of
    that order to (times, fluxes), evaluates it at each time, replaces
    [fluxes[i]] by the old [fluxes[i]] divided by the model value at
    [times[i]] and [uncertainties[i]] by the old [uncertainties[i]]
    divided by the same model value, for every index [i], and sets
    [cleaned] to true. *)
Theorem clean_divides_by_model w self lc n t f u order p :
  objects w !! self = Some lc →
  has_points w lc n →
  deref w (times lc) = Some t → deref w (fluxes lc) = Some f →
  deref w (uncertainties lc) = Some u →
  fluxes lc ≠ uncertainties lc →
  (0 ≤ order)%Z →
  polyfit t f order = inr p →
  ∃ w' lc' f' u',
    clean self order w = (inr tt, w') ∧
    objects w' !! self = Some lc' ∧
    cleaned lc' = true ∧
    deref w' (fluxes lc') = Some f' ∧
    deref w' (uncertainties lc') = Some u' ∧
    f' = zip_with fdiv f (polyval p t) ∧
    u' = zip_with fdiv u (polyval p t) ∧
    length f' = n ∧ length u' = n ∧
    (∀ i fi ui ti,
       f !! i = Some fi → u !! i = Some ui → t !! i = Some ti →
       f' !! i = Some (fdiv fi (horner p ti)) ∧
       u' !! i = Some (fdiv ui (horner p ti))).
Proof.
  intros Hself Hpts Ht Hf Hu Hne _ Hfit.
  destruct (clean_runs_distinct w self lc n t f u order p)
    as (lf & lu & Hlf & Hlu & Hfu & Haf & Hau & Hrun); try done.
  destruct Hpts as (Hnt & Hnf & Hnu & _).
  pose proof (seq_len_deref _ _ _ _ Hnt Ht) as Hlt.
  pose proof (seq_len_deref _ _ _ _ Hnf Hf) as Hlenf.
  pose proof (seq_len_deref _ _ _ _ Hnu Hu) as Hlenu.
  eexists _, _, _, _. split; [exact Hrun|]. simpl.
  rewrite lookup_insert_eq. split; [done|]. simpl.
  rewrite Hlf, Hlu. simpl.
  rewrite lookup_insert_ne, lookup_insert_eq by done.
  rewrite lookup_insert_eq.
  split_and!; try done.
  - rewrite length_zip_with, polyval_length. lia.
  - rewrite length_zip_with, polyval_length. lia.
  - intros i fi ui ti Hi Hui Hti. split; by apply divided_lookup.
Qed.


Lemma seq_len_same_length w w' r n :
  (∀ l, length <$> arrays w' !! l = length <$> arrays w !! l) →
  seq_len w r n → seq_len w' r n.
Proof.
  unfold seq_len, deref. intros Hlen. destruct r as [l|]; simpl; [|done].
  by rewrite Hlen.
Qed.

Lemma seq_len_weaken w w' r n :
  arrays w ⊆ arrays w' → seq_len w r n → seq_len w' r n.
Proof.
  unfold seq_len, deref. intros Hsub. destruct r as [l|]; simpl; [|done].
  destruct (arrays w !! l) as [a|] eqn:Ha; [|done].
  by rewrite (lookup_weaken _ _ _ _ Ha Hsub).
Qed.

(** C7.  The four sequences of a LightCurve keep their common length [n]
    through loading and through detrending, whatever the outcome of the
    operation: an existing record with four sequences of length [n] still
    has them after [from_txt] and after [clean] (applied to it or to any
    other record), and the record that a successful [from_txt] creates
    has four sequences of one length. *)
Theorem lengths_preserved w o lc n path self order :
  objects w !! o = Some lc →
  has_points w lc n →
  (objects (from_txt path w).2 !! o = Some lc ∧
   has_points (from_txt path w).2 lc n) ∧
  (∀ new, (from_txt path w).1 = inr new →
     ∃ lc' n', objects (from_txt path w).2 !! new = Some lc' ∧
               has_points (from_txt path w).2 lc' n') ∧
  (∃ lc', objects (clean self order w).2 !! o = Some lc' ∧
          has_points (clean self order w).2 lc' n).
Proof.
  intros Ho (Ht & Hf & Hu & Hg). split_and!.
  - destruct (from_txt_effect w path) as (Hobj & _).
    by apply (lookup_weaken _ _ _ _ Ho Hobj).
  - destruct (from_txt_effect w path) as (_ & Harr & _).
    split_and!; by eapply seq_len_weaken.
  - intros new Hnew.
    destruct (from_txt path w) as [res w'] eqn:Hrun. simpl in *. subst res.
    destruct (from_txt_has_points _ _ _ _ Hrun) as (lc' & n' & ? & ? & _).
    by exists lc', n'.
  - destruct (clean_effect w self order) as (_ & _ & _ & Hattr & Hlen & _).
    specialize (Hattr o). rewrite Ho in Hattr. simpl in Hattr.
    destruct (objects (clean self order w).2 !! o) as [lc'|]; [|done].
    injection Hattr as Et Ef Eu Eg _.
    exists lc'. split; [done|].
    unfold has_points. rewrite Et, Ef, Eu, Eg.
    split_and!; by eapply seq_len_same_length.
Qed.

(** C8 (amended).  [clean] changes no attribute of the record other than
    [cleaned] and writes to no array other than the fluxes and the
    uncertainties arrays of the record: the times and flags attributes
    and the name are unchanged, and the contents of times and of flags
    are unchanged provided they are not the very array that serves as
    fluxes or uncertainties.  Construction, loading and plotting leave
    every existing record and every existing array as they were. *)
Theorem clean_frame w self lc order path t f u g nm :
  objects w !! self = Some lc →
  (forget_cleaned <$> objects (clean self order w).2 !! self
     = Some (forget_cleaned lc) ∧
   (∀ o, o ≠ self → objects (clean self order w).2 !! o = objects w !! o) ∧
   (∀ l, Some l ≠ fluxes lc → Some l ≠ uncertainties lc →
         arrays (clean self order w).2 !! l = arrays w !! l) ∧
   (times lc ≠ fluxes lc → times lc ≠ uncertainties lc →
    deref (clean self order w).2 (times lc) = deref w (times lc)) ∧
   (flags lc ≠ fluxes lc → flags lc ≠ uncertainties lc →
    deref (clean self order w).2 (flags lc) = deref w (flags lc))) ∧
  (objects w ⊆ objects (__init__ t f u g nm w).2 ∧
   arrays w ⊆ arrays (__init__ t f u g nm w).2) ∧
  (objects w ⊆ objects (from_txt path w).2 ∧
   arrays w ⊆ arrays (from_txt path w).2) ∧
  (objects (plot self w).2 = objects w ∧
   arrays (plot self w).2 = arrays w).
Proof.
  intros Hself.
  destruct (clean_effect w self order)
    as (_ & _ & Hother & Hattr & _ & Harr).
  split_and!.
  - by rewrite Hattr, Hself.
  - done.
  - intros l. by apply Harr.
  - intros H1 H2. unfold deref. destruct (times lc) as [l|]; simpl; [|done].
    by apply (Harr lc).
  - intros H1 H2. unfold deref. destruct (flags lc) as [l|]; simpl; [|done].
    by apply (Harr lc).
  - destruct (init_effect w t f u g nm) as (-> & Hnew). simpl.
    by apply insert_subseteq.
  - by destruct (init_effect w t f u g nm) as (-> & _).
  - apply from_txt_effect.
  - apply from_txt_effect.
  - apply plot_effect.
  - apply plot_effect.
Qed.

(** C9 (amended).  [clean] does not look at [cleaned]: on a record that
    has already been detrended (with fluxes and uncertainties in distinct
    arrays) a second application fits the current fluxes again and
    divides fluxes and uncertainties by this second model; [cleaned]
    stays true and no other attribute changes.  It leaves the state
    exactly as it was if, and only if, dividing by the second model
    changes no flux and no uncertainty; so reapplying need not change
    the record. *)
Theorem clean_again w self lc n t f u order p :
  objects w !! self = Some lc →
  cleaned lc = true →
  has_points w lc n →
  deref w (times lc) = Some t → deref w (fluxes lc) = Some f →
  deref w (uncertainties lc) = Some u →
  fluxes lc ≠ uncertainties lc →
  polyfit t f order = inr p →
  ∃ w',
    clean self order w = (inr tt, w') ∧
    objects w' !! self = Some lc ∧
    deref w' (fluxes lc) = Some (zip_with fdiv f (polyval p t)) ∧
    deref w' (uncertainties lc) = Some (zip_with fdiv u (polyval p t)) ∧
    (w' = w ↔ zip_with fdiv f (polyval p t) = f ∧
              zip_with fdiv u (polyval p t) = u).
Proof.
  intros Hself Hcl Hpts Ht Hf Hu Hne Hfit.
  destruct (clean_runs_distinct w self lc n t f u order p)
    as (lf & lu & Hlf & Hlu & Hfu & Haf & Hau & Hrun); try done.
  eexists. split; [exact Hrun|].
  assert (Hrec : mkLightCurve (times lc) (fluxes lc) (uncertainties lc)
                              (flags lc) (name lc) true = lc).
  { destruct lc; simpl in *. by subst. }
  rewrite Hrec, Hlf, Hlu. simpl.
  split; [by rewrite lookup_insert_eq|].
  split; [by rewrite lookup_insert_ne, lookup_insert_eq|].
  split; [by rewrite lookup_insert_eq|].
  split.
  - intros Heq.
    assert (Harr : <[lu := zip_with fdiv u (polyval p t)]>
                     (<[lf := zip_with fdiv f (polyval p t)]> (arrays w))
                   = arrays w).
    { by apply (f_equal arrays) in Heq. }
    split.
    + apply (f_equal (λ m, m !! lf)) in Harr.
      rewrite lookup_insert_ne, lookup_insert_eq in Harr by done. congruence.
    + apply (f_equal (λ m, m !! lu)) in Harr.
      rewrite lookup_insert_eq in Harr. congruence.
  - intros [-> ->].
    rewrite (insert_id (arrays w) lf f Haf), (insert_id (arrays w) lu u Hau).
    rewrite (insert_id (objects w) self lc Hself). by destruct w.
Qed.

(** C5 (amended).  Round trip: for every LightCurve whose four sequences
    have the same length [n ≥ 2], writing them as a four-row table and
    loading that table with [from_txt] gives a new record with the same
    four sequences. *)
Theorem round_trip w self lc n path t f u g :
  objects w !! self = Some lc →
  has_points w lc n →
  deref w (times lc) = Some t → deref w (fluxes lc) = Some f →
  deref w (uncertainties lc) = Some u → deref w (flags lc) = Some g →
  2 ≤ n →
  ∃ w1 new lc' w2,
    to_txt self path w = (inr tt, w1) ∧
    from_txt path w1 = (inr new, w2) ∧
    objects w2 !! new = Some lc' ∧
    deref w2 (times lc') = Some t ∧ deref w2 (fluxes lc') = Some f ∧
    deref w2 (uncertainties lc') = Some u ∧ deref w2 (flags lc') = Some g.
Proof.
  intros Hself (Hnt & Hnf & Hnu & Hng) Ht Hf Hu Hg Hn.
  assert (Hwrite : to_txt self path w =
            (inr tt, mkWorld (<[path := table_text [t; f; u; g]]> (files w))
                             (arrays w) (objects w) (canvas w))).
  { unfold to_txt, bind, get_object. rewrite Hself.
    by rewrite (read_array_deref _ _ _ Ht), (read_array_deref _ _ _ Hf),
               (read_array_deref _ _ _ Hu), (read_array_deref _ _ _ Hg). }
  set (w1 := mkWorld _ _ _ _) in Hwrite.
  destruct (from_txt_accepts w1 path t f u g [] n)
    as (new & lc' & w2 & Hrun & _ & Hobj & ? & ? & ? & ? & _).
  { unfold w1. simpl. by rewrite lookup_insert_eq. }
  { rewrite !Forall_cons, Forall_nil.
    split_and!; [exact (seq_len_deref _ _ _ _ Hnt Ht)
                |exact (seq_len_deref _ _ _ _ Hnf Hf)
                |exact (seq_len_deref _ _ _ _ Hnu Hu)
                |exact (seq_len_deref _ _ _ _ Hng Hg)|done]. }
  { done. }
  exists w1, new, lc', w2. rewrite Hobj, lookup_insert_eq. by split_and!.
Qed.

(** * Further properties of the class and of the cells that use it *)

(** ** Outcome of [from_txt] on an arbitrary file *)

Lemma from_txt_runs_iff w path :
  (∃ self w', from_txt path w = (inr self, w')) ↔ loadable (files w) path.
Proof.
  split.
  - intros (self & w' & Hrun).
    destruct (from_txt_inv _ _ _ _ Hrun)
      as (lines & r0 & r1 & r2 & r3 & rest & Hfile & Htbl & Hlen).
    exists lines, (length (r0 :: r1 :: r2 :: r3 :: rest)), (length r0).
    split_and!; [done| |simpl; lia|done].
    by apply (read_table_parses lines (r0 :: r1 :: r2 :: r3 :: rest)).
  - intros (lines & r & c & Hfile & (tbl & Htbl & Hr & Hc) & H4 & H2).
    destruct tbl as [|r0 [|r1 [|r2 [|r3 rest]]]]; simpl in Hr; try lia.
    apply Forall_cons in Hc as (Hc0 & _).
    destruct (from_txt_rows w path lines r0 r1 r2 r3 rest Hfile Htbl)
      as (self & ? & ? & ? & ? & w' & Hrun & _); [lia|].
    by exists self, w'.
Qed.

(** [from_txt] returns a record exactly when the file exists and holds a
    numeric table (blank lines aside) with at least four rows and at least
    two columns; the four sequences of the record are then the first four
    rows of that table, whatever else the file holds. *)
Theorem from_txt_succeeds_iff w path :
  ((∃ self w', from_txt path w = (inr self, w')) ↔
   loadable (files w) path) ∧
  (∀ self w', from_txt path w = (inr self, w') →
     ∃ lines tbl lc,
       files w !! path = Some lines ∧ read_table lines = inr tbl ∧
       objects w' !! self = Some lc ∧
       deref w' (times lc) = tbl !! 0 ∧
       deref w' (fluxes lc) = tbl !! 1 ∧
       deref w' (uncertainties lc) = tbl !! 2 ∧
       deref w' (flags lc) = tbl !! 3).
Proof.
  split; [apply from_txt_runs_iff|].
  intros self w' Hrun.
  destruct (from_txt_inv _ _ _ _ Hrun)
    as (lines & r0 & r1 & r2 & r3 & rest & Hfile & Htbl & Hlen).
  destruct (from_txt_rows w path lines r0 r1 r2 r3 rest Hfile Htbl Hlen)
    as (self' & lt & lf & lu & lg & w'' & Hrun' & _ & Hobj & _ & _ &
        Ht & Hf & Hu & Hg & _).
  rewrite Hrun in Hrun'. injection Hrun' as <- <-.
  exists lines, (r0 :: r1 :: r2 :: r3 :: rest). eexists.
  split_and!; [done|done|by rewrite Hobj, lookup_insert_eq|simpl..]; done.
Qed.

(** When [from_txt] raises, nothing has been created, and the exception
    tells what was wrong: [OSError] for a missing file, [ValueError] for a
    file that is not a numeric table (a field that is not a number, rows
    of different lengths), [IndexError] for a numeric table with fewer
    than four rows or fewer than two columns. *)
Theorem from_txt_error_kinds w path e w' :
  from_txt path w = (inl e, w') →
  w' = w ∧
  (e = OSError ∧ files w !! path = None ∨
   ∃ lines, files w !! path = Some lines ∧
     (e = ValueError ∧ (∀ r c, ¬ parses_as lines r c) ∨
      e = IndexError ∧ ∃ r c, parses_as lines r c ∧ (r < 4 ∨ c < 2))).
Proof.
  intros Hrun.
  destruct (files w !! path) as [lines|] eqn:Hfile.
  2:{ unfold from_txt, bind, loadtxt in Hrun. rewrite Hfile in Hrun.
      injection Hrun as <- <-. split; [done|]. by left. }
  destruct (read_table lines) as [e'|tbl] eqn:Htbl.
  { apply read_table_error in Htbl as He. subst e'.
    unfold from_txt, bind, loadtxt in Hrun. rewrite Hfile, Htbl in Hrun.
    injection Hrun as <- <-. split; [done|]. right. exists lines.
    split; [done|]. left. split; [done|].
    intros r c (tbl & Htbl' & _). congruence. }
  destruct (decide (length tbl < 4 ∨ length (hd [] tbl) < 2)) as [Hbad|Hok].
  - rewrite (from_txt_wrong_shape w path lines tbl) in Hrun by done.
    injection Hrun as <- <-. split; [done|]. right. exists lines.
    split; [done|]. right. split; [done|].
    exists (length tbl), (length (hd [] tbl)).
    split; [by apply read_table_parses|done].
  - destruct tbl as [|r0 [|r1 [|r2 [|r3 rest]]]]; simpl in Hok; try lia.
    destruct (from_txt_rows w path lines r0 r1 r2 r3 rest)
      as (? & ? & ? & ? & ? & ? & Hrun' & _); [done|done|lia|].
    congruence.
Qed.

(** Whether [from_txt] raises, and what, depends on the files only. *)
Lemma from_txt_error_files w w0 path e w0' :
  files w0 = files w →
  from_txt path w0 = (inl e, w0') →
  from_txt path w = (inl e, w).
Proof.
  intros Hfiles Hrun.
  destruct (files w !! path) as [lines|] eqn:Hfile.
  2:{ unfold from_txt, bind, loadtxt in *. rewrite Hfiles, Hfile in Hrun.
      rewrite Hfile. congruence. }
  destruct (read_table lines) as [e'|tbl] eqn:Htbl.
  { unfold from_txt, bind, loadtxt in *.
    rewrite Hfiles, Hfile, Htbl in Hrun. rewrite Hfile, Htbl. congruence. }
  destruct (decide (length tbl < 4 ∨ length (hd [] tbl) < 2)) as [Hbad|Hok].
  - rewrite (from_txt_wrong_shape w0 path lines tbl) in Hrun
      by (done || by rewrite Hfiles).
    rewrite (from_txt_wrong_shape w path lines tbl) by done. congruence.
  - destruct tbl as [|r0 [|r1 [|r2 [|r3 rest]]]]; simpl in Hok; try lia.
    destruct (from_txt_rows w0 path lines r0 r1 r2 r3 rest)
      as (? & ? & ? & ? & ? & ? & Hrun' & _);
      [by rewrite Hfiles|done|lia|].
    congruence.
Qed.

(** The run of [from_txt] on a table of at least four rows and two
    columns, with the addresses it allocates. *)
Lemma from_txt_explicit w path lines r0 r1 r2 r3 rest :
  files w !! path = Some lines →
  read_table lines = inr (r0 :: r1 :: r2 :: r3 :: rest) →
  2 ≤ length r0 →
  let lt := fresh (dom (arrays w)) in
  let m1 := <[lt:=r0]> (arrays w) in
  let lf := fresh (dom m1) in
  let m2 := <[lf:=r1]> m1 in
  let lu := fresh (dom m2) in
  let m3 := <[lu:=r2]> m2 in
  let lg := fresh (dom m3) in
  let self := fresh (dom (objects w)) in
  from_txt path w =
    (inr self,
     mkWorld (files w) (<[lg:=r3]> m3)
       (<[self := mkLightCurve (Some lt) (Some lf) (Some lu) (Some lg)
                               None false]> (objects w))
       (canvas w)).
Proof.
  intros Hfile Htbl Hlen. simpl.
  unfold from_txt, bind, loadtxt. rewrite Hfile, Htbl.
  assert (Hsq : squeeze (r0 :: r1 :: r2 :: r3 :: rest)
                = Arr2 (r0 :: r1 :: r2 :: r3 :: rest)).
  { destruct r0 as [|a [|b r0]]; simpl in *; [lia|lia|done]. }
  by rewrite Hsq.
Qed.

(** The arrays of a loaded record are new and pairwise distinct: no
    earlier array, hence no earlier record, shares storage with it. *)
Lemma from_txt_fresh w path self w' :
  from_txt path w = (inr self, w') →
  objects w !! self = None ∧
  ∃ lc n,
    objects w' = <[self := lc]> (objects w) ∧
    has_points w' lc n ∧ 2 ≤ n ∧
    cleaned lc = false ∧ name lc = None ∧
    NoDup (footprint lc) ∧
    (∀ r, r ∈ footprint lc → ∃ l, r = Some l ∧ arrays w !! l = None).
Proof.
  intros Hrun.
  destruct (from_txt_has_points _ _ _ _ Hrun) as (lc & n & Hlc & Hpts & Hn).
  destruct (from_txt_inv _ _ _ _ Hrun)
    as (lines & r0 & r1 & r2 & r3 & rest & Hfile & Htbl & Hlen).
  pose proof (from_txt_explicit w path lines r0 r1 r2 r3 rest Hfile Htbl Hlen)
    as Hexp. simpl in Hexp. rewrite Hrun in Hexp.
  injection Hexp as -> ->. simpl in *.
  set (lt := fresh (dom (arrays w))) in *.
  set (m1 := <[lt:=r0]> (arrays w)) in *.
  set (lf := fresh (dom m1)) in *.
  set (m2 := <[lf:=r1]> m1) in *.
  set (lu := fresh (dom m2)) in *.
  set (m3 := <[lu:=r2]> m2) in *.
  set (lg := fresh (dom m3)) in *.
  assert (Ht : arrays w !! lt = None) by apply not_elem_of_dom, is_fresh.
  assert (Hf : m1 !! lf = None) by apply not_elem_of_dom, is_fresh.
  assert (Hu : m2 !! lu = None) by apply not_elem_of_dom, is_fresh.
  assert (Hg : m3 !! lg = None) by apply not_elem_of_dom, is_fresh.
  apply lookup_insert_None in Hf as (Hf & Htf).
  apply lookup_insert_None in Hu as ((Hu & Htu)%lookup_insert_None & Hfu).
  apply lookup_insert_None in Hg
    as (((Hg & Htg)%lookup_insert_None & Hfg)%lookup_insert_None & Hug).
  rewrite lookup_insert_eq in Hlc. injection Hlc as <-.
  split; [apply not_elem_of_dom, is_fresh|].
  eexists _, n. split; [reflexivity|].
  split_and!; try done.
  - unfold footprint. simpl.
    repeat (apply NoDup_cons; split;
      [rewrite list_elem_of_In; simpl; intros Hx; decompose [or] Hx;
       congruence|]).
    apply NoDup_nil_2.
  - unfold footprint. simpl. intros r Hr.
    apply list_elem_of_In in Hr. simpl in Hr.
    destruct Hr as [<-|[<-|[<-|[<-|[]]]]]; eauto.
Qed.

(** ** Outcome of [clean] on an arbitrary record *)

Lemma true_divide_into_mismatch (a b : list F) :
  length b ≠ length a → length b ≠ 1 →
  true_divide_into a b = inl ValueError.
Proof.
  intros Hne H1. unfold true_divide_into.
  destruct (Nat.eqb_spec (length b) (length a)); [done|].
  by destruct b as [|b0 [|??]].
Qed.

Lemma true_divide_into_broadcast (a : list F) b0 :
  true_divide_into a [b0] = inr (map (λ ai, fdiv ai b0) a).
Proof.
  unfold true_divide_into.
  destruct (Nat.eqb_spec (length [b0]) (length a)) as [Hlen|]; [|done].
  destruct a as [|a0 [|??]]; simpl in *; try lia. done.
Qed.

Lemma true_divide_into_error (a b : list F) e :
  true_divide_into a b = inl e → e = ValueError.
Proof.
  unfold true_divide_into. destruct (Nat.eqb (length b) (length a)); [done|].
  destruct b as [|b0 [|??]]; congruence.
Qed.

(** After a successful fit: the fluxes are divided, and the outcome is
    that of the division of the uncertainties. *)
Lemma clean_after_fit w self lc lf t f order p :
  objects w !! self = Some lc →
  deref w (times lc) = Some t →
  fluxes lc = Some lf → arrays w !! lf = Some f →
  polyfit t f order = inr p →
  let m := polyval p t in
  let w1 := set_arrays (insert lf (zip_with fdiv f m)) w in
  clean self order w =
    match uncertainties lc ≫= λ lu, arrays w1 !! lu ≫= λ u1,
          Some (lu, true_divide_into u1 m) with
    | None => (inl TypeError, w1)
    | Some (lu, inl e) => (inl e, w1)
    | Some (lu, inr u') =>
        (inr tt,
         mkWorld (files w) (<[lu := u']> (arrays w1))
           (<[self := mkLightCurve (times lc) (fluxes lc) (uncertainties lc)
                                   (flags lc) (name lc) true]> (objects w))
           (canvas w))
    end.
Proof.
  intros Hself Ht Hlf Hf Hfit. simpl.
  apply polyfit_success in Hfit as Hfit'. destruct Hfit' as (_ & _ & Htf & _).
  unfold clean, bind, get_object.
  rewrite Hself, (read_array_deref _ _ _ Ht).
  rewrite Hlf. unfold read_array at 1. rewrite Hf, Hfit. simpl.
  rewrite (read_array_deref _ _ _ Ht).
  unfold itruediv at 1. rewrite Hf.
  rewrite true_divide_into_same by (rewrite polyval_length; lia).
  unfold itruediv. destruct (uncertainties lc) as [lu|] eqn:Hlu; simpl; [|done].
  destruct (<[lf:=zip_with fdiv f (polyval p t)]> (arrays w) !! lu)
    as [u1|]; simpl; [|done].
  destruct (true_divide_into u1 (polyval p t)) as [e|u']; [done|].
  unfold set_cleaned. simpl. by rewrite Hself, Hlf, Hlu.
Qed.

(** When [clean] raises, no attribute has been assigned (in particular
    [cleaned] is as before) and no array other than the fluxes of the
    record has been written: the uncertainties are never left rescaled
    on their own. *)
Theorem clean_failure_effect w self order e w' :
  clean self order w = (inl e, w') →
  objects w' = objects w ∧ files w' = files w ∧ canvas w' = canvas w ∧
  (∀ l, (∀ lc, objects w !! self = Some lc → Some l ≠ fluxes lc) →
        arrays w' !! l = arrays w !! l).
Proof.
  unfold clean, bind, get_object.
  destruct (objects w !! self) as [lc|] eqn:Hself; [|by intros [= <- <-]].
  destruct (read_array (times lc) w) as [[e1|t] w0] eqn:Hr1;
    apply read_array_state in Hr1 as ->; [by intros [= <- <-]|].
  destruct (read_array (fluxes lc) w) as [[e1|f] w0] eqn:Hr2;
    apply read_array_state in Hr2 as ->; [by intros [= <- <-]|].
  destruct (polyfit t f order) as [e1|p]; simpl; [by intros [= <- <-]|].
  destruct (read_array (times lc) w) as [[e1|t'] w0] eqn:Hr3;
    apply read_array_state in Hr3 as ->; [by intros [= <- <-]|].
  pose proof (itruediv_effect (fluxes lc) (polyval p t') w)
    as (Hf1 & Ho1 & Hc1 & _ & Ha1).
  destruct (itruediv (fluxes lc) (polyval p t') w) as [[e1|[]] w1] eqn:Hd1;
    simpl in *.
  { intros [= <- <-]. split_and!; try done.
    intros l Hl. apply Ha1. by apply Hl. }
  destruct (itruediv (uncertainties lc) (polyval p t') w1)
    as [[e2|[]] w2] eqn:Hd2; simpl in *.
  - intros [= <- <-].
    assert (w2 = w1) as ->.
    { unfold itruediv in Hd2. destruct (uncertainties lc) as [lu|]; [|congruence].
      destruct (arrays w1 !! lu) as [u|]; [|congruence].
      destruct (true_divide_into u (polyval p t')); congruence. }
    split_and!; try done.
    intros l Hl. apply Ha1. by apply Hl.
  - unfold set_cleaned.
    pose proof (itruediv_effect (uncertainties lc) (polyval p t') w1)
      as (_ & Ho2 & _). rewrite Hd2 in Ho2. simpl in Ho2.
    by rewrite Ho2, Ho1, Hself.
Qed.

(** The only assignment to an attribute in [clean] is the last
    statement. *)
Lemma clean_objects w self order :
  match (clean self order w).1 with
  | inl _ => objects (clean self order w).2 = objects w
  | inr _ =>
      ∃ lc, objects w !! self = Some lc ∧
            objects (clean self order w).2
            = <[self := mkLightCurve (times lc) (fluxes lc)
                          (uncertainties lc) (flags lc) (name lc) true]>
                (objects w)
  end.
Proof.
  unfold clean, bind, get_object.
  destruct (objects w !! self) as [lc|] eqn:Hself; [|done].
  destruct (read_array (times lc) w) as [[e1|t] w0] eqn:Hr1;
    apply read_array_state in Hr1 as ->; [done|].
  destruct (read_array (fluxes lc) w) as [[e1|f] w0] eqn:Hr2;
    apply read_array_state in Hr2 as ->; [done|].
  destruct (polyfit t f order) as [e1|p]; simpl; [done|].
  destruct (read_array (times lc) w) as [[e1|t'] w0] eqn:Hr3;
    apply read_array_state in Hr3 as ->; [done|].
  pose proof (itruediv_effect (fluxes lc) (polyval p t') w)
    as (_ & Ho1 & _).
  destruct (itruediv (fluxes lc) (polyval p t') w) as [[e1|[]] w1];
    simpl in *; [done|].
  pose proof (itruediv_effect (uncertainties lc) (polyval p t') w1)
    as (_ & Ho2 & _).
  destruct (itruediv (uncertainties lc) (polyval p t') w1)
    as [[e2|[]] w2]; simpl in *; [congruence|].
  unfold set_cleaned. rewrite Ho2, Ho1, Hself. simpl.
  exists lc. by rewrite Ho2, Ho1.
Qed.

(** [clean] never takes [cleaned] back: whatever its outcome, a record
    that was marked cleaned stays so, and a successful [clean] marks the
    record it was applied to. *)
Lemma clean_cleaned w self order :
  (∀ o, cleaned <$> objects w !! o = Some true →
        cleaned <$> objects (clean self order w).2 !! o = Some true) ∧
  ((clean self order w).1 = inr tt →
   cleaned <$> objects (clean self order w).2 !! self = Some true).
Proof.
  pose proof (clean_objects w self order) as Hobj.
  destruct ((clean self order w).1) as [e|[]].
  - rewrite Hobj. by split.
  - destruct Hobj as (lc & Hself & ->). split.
    + intros o Ho. destruct (decide (o = self)) as [->|Hne].
      * by rewrite lookup_insert_eq.
      * by rewrite lookup_insert_ne.
    + intros _. by rewrite lookup_insert_eq.
Qed.

(** A record built without uncertainties (the default [None] of the
    constructor): [clean] rescales the fluxes and then raises [TypeError];
    [cleaned] is not set. *)
Theorem clean_without_uncertainties w self lc lf t f order p :
  objects w !! self = Some lc →
  deref w (times lc) = Some t →
  fluxes lc = Some lf → arrays w !! lf = Some f →
  uncertainties lc = None →
  polyfit t f order = inr p →
  clean self order w =
    (inl TypeError,
     mkWorld (files w) (<[lf := zip_with fdiv f (polyval p t)]> (arrays w))
             (objects w) (canvas w)).
Proof.
  intros Hself Ht Hlf Hf Hu Hfit.
  rewrite (clean_after_fit w self lc lf t f order p) by done.
  by rewrite Hu.
Qed.

(** Uncertainties of another length than the times (with more than one
    point, so that the model cannot be broadcast): [clean] rescales the
    fluxes and then raises [ValueError]; the uncertainties are untouched
    and [cleaned] is not set. *)
Theorem clean_uncertainties_wrong_length w self lc lf lu t f u order p :
  objects w !! self = Some lc →
  deref w (times lc) = Some t →
  fluxes lc = Some lf → arrays w !! lf = Some f →
  uncertainties lc = Some lu → arrays w !! lu = Some u →
  lf ≠ lu →
  length u ≠ length t → length t ≠ 1 →
  polyfit t f order = inr p →
  clean self order w =
    (inl ValueError,
     mkWorld (files w) (<[lf := zip_with fdiv f (polyval p t)]> (arrays w))
             (objects w) (canvas w)).
Proof.
  intros Hself Ht Hlf Hf Hlu Hu Hne Hlen H1 Hfit.
  rewrite (clean_after_fit w self lc lf t f order p) by done.
  rewrite Hlu. simpl. rewrite lookup_insert_ne, Hu by done. simpl.
  rewrite true_divide_into_mismatch; [done|..];
    rewrite polyval_length; congruence.
Qed.

(** [clean] succeeds exactly when the order is not negative, there is at
    least one point, fluxes and times have the same length, the
    least-squares solve returns, and the uncertainties have the length of
    the times (or there is a single point, whose model value is then
    broadcast over the uncertainties). *)
Theorem clean_succeeds_iff w self lc t f u order :
  objects w !! self = Some lc →
  deref w (times lc) = Some t → deref w (fluxes lc) = Some f →
  deref w (uncertainties lc) = Some u →
  (∃ w', clean self order w = (inr tt, w')) ↔
  (0 ≤ order)%Z ∧ 0 < length t ∧ length f = length t ∧
  is_Some (lstsq (vander t (Z.to_nat (order + 1))) f) ∧
  (length u = length t ∨ length t = 1).
Proof.
  intros Hself Ht Hf Hu.
  apply deref_Some in Hf as Hf'. destruct Hf' as (lf & Hlf & Haf).
  apply deref_Some in Hu as Hu'. destruct Hu' as (lu & Hlu & Hau).
  destruct (polyfit t f order) as [e|p] eqn:Hfit.
  { split.
    - intros (w' & Hrun).
      by rewrite (clean_fit_fails w self lc t f order e) in Hrun.
    - intros (Hpos & Hn & Hlen & [p Hp] & _).
      assert (polyfit t f order = inr p) as Hfit' by
        (apply polyfit_success; split_and!; (done || lia)).
      congruence. }
  apply polyfit_success in Hfit as Hfit'.
  destruct Hfit' as (Hpos & Hn & Hlen & Hsolve).
  rewrite (clean_after_fit w self lc lf t f order p) by done.
  rewrite Hlu. simpl.
  destruct (decide (lf = lu)) as [<-|Hne].
  - (* one array serves as fluxes and uncertainties *)
    rewrite lookup_insert_eq. simpl.
    rewrite true_divide_into_same
      by (rewrite length_zip_with, !polyval_length; lia).
    split; [|by eauto]. intros _.
    assert (u = f) as -> by congruence.
    split_and!; [done|done|lia|by eauto|left; lia].
  - rewrite lookup_insert_ne, Hau by done. simpl.
    destruct (true_divide_into u (polyval p t)) as [e|u'] eqn:Hdiv.
    + split; [by intros (? & ?)|].
      intros (_ & _ & _ & _ & [Hu1|Ht1]).
      * rewrite true_divide_into_same in Hdiv; [done|].
        rewrite polyval_length. lia.
      * destruct t as [|t0 [|??]]; simpl in Ht1; try lia.
        unfold polyval in Hdiv. simpl in Hdiv.
        by rewrite true_divide_into_broadcast in Hdiv.
    + split; [|by eauto]. intros _.
      split_and!; [done|done|lia|by eauto|].
      destruct (decide (length u = length t)) as [?|Hne1]; [by left|].
      destruct (decide (length t = 1)) as [?|Hne2]; [by right|].
      rewrite true_divide_into_mismatch in Hdiv; [done|..];
        rewrite polyval_length; congruence.
Qed.

(** Detrending one record leaves every record that shares no array with
    its fluxes or uncertainties entirely as it was. *)
Theorem clean_other_record w self lc o lc' order :
  objects w !! self = Some lc →
  objects w !! o = Some lc' →
  o ≠ self →
  (∀ l, Some l ∈ footprint lc' →
        Some l ≠ fluxes lc ∧ Some l ≠ uncertainties lc) →
  objects (clean self order w).2 !! o = Some lc' ∧
  Forall (λ r, deref (clean self order w).2 r = deref w r) (footprint lc').
Proof.
  intros Hself Ho Hne Hsep.
  destruct (clean_effect w self order) as (_ & _ & Hother & _ & _ & Harr).
  split; [by rewrite Hother|].
  apply Forall_forall. intros r Hr. unfold deref.
  destruct r as [l|]; simpl; [|done].
  destruct (Hsep l Hr) as (? & ?). by apply (Harr lc).
Qed.

(** The constructor stores the caller's arrays, not copies: detrending
    the new record rescales the arrays that were passed in, for the
    caller and for every other record built from them, whose attributes
    ([cleaned] included) stay as they are. *)
Theorem init_shares_arrays w lt lf lu g nm t f u order p :
  arrays w !! lt = Some t → arrays w !! lf = Some f →
  arrays w !! lu = Some u →
  lf ≠ lu → length u = length t →
  polyfit t f order = inr p →
  ∃ self w1 w2,
    __init__ (Some lt) (Some lf) (Some lu) g nm w = (inr self, w1) ∧
    objects w !! self = None ∧
    arrays w1 = arrays w ∧
    clean self order w1 = (inr tt, w2) ∧
    arrays w2 !! lf = Some (zip_with fdiv f (polyval p t)) ∧
    arrays w2 !! lu = Some (zip_with fdiv u (polyval p t)) ∧
    (∀ o lc, objects w !! o = Some lc → objects w2 !! o = Some lc).
Proof.
  intros Ht Hf Hu Hne Hlen Hfit.
  destruct (init_effect w (Some lt) (Some lf) (Some lu) g nm) as (Hinit & Hnew).
  simpl in Hinit. set (self := fresh (dom (objects w))) in *.
  set (lc := mkLightCurve (Some lt) (Some lf) (Some lu) g nm false).
  eexists self, _, _. split; [exact Hinit|].
  split; [done|]. split; [done|].
  split.
  { apply (clean_runs _ self lc lf lu t f u order p); simpl; try done.
    - by rewrite lookup_insert_eq.
    - by rewrite lookup_insert_ne. }
  simpl. split_and!.
  - by rewrite lookup_insert_ne, lookup_insert_eq.
  - by rewrite lookup_insert_eq.
  - intros o lc' Ho.
    assert (o ≠ self) by congruence.
    by rewrite !lookup_insert_ne.
Qed.

(** No method ever takes [cleaned] back: a record marked cleaned stays so
    through [clean] (whatever its outcome), [plot], [from_txt] and the
    constructor. *)
Theorem cleaned_never_reset w o self order path t f u g nm :
  cleaned <$> objects w !! o = Some true →
  cleaned <$> objects (clean self order w).2 !! o = Some true ∧
  cleaned <$> objects (plot self w).2 !! o = Some true ∧
  cleaned <$> objects (from_txt path w).2 !! o = Some true ∧
  cleaned <$> objects (__init__ t f u g nm w).2 !! o = Some true.
Proof.
  intros Ho. split_and!.
  - by apply clean_cleaned.
  - destruct (plot_effect w self) as (_ & _ & ->). done.
  - destruct (from_txt_effect w path) as (Hsub & _).
    destruct (objects w !! o) as [lc|] eqn:Hlc; [|done].
    by rewrite (lookup_weaken _ _ _ _ Hlc Hsub).
  - destruct (init_effect w t f u g nm) as (-> & Hnew). simpl.
    destruct (objects w !! o) as [lc|] eqn:Hlc; [|done].
    rewrite lookup_insert_ne; [by rewrite Hlc|congruence].
Qed.

(** ** Plotting *)

Lemma plot_runs w self lc :
  objects w !! self = Some lc →
  errorbar_raises (deref w (times lc)) (deref w (fluxes lc))
                  (deref w (uncertainties lc)) = None →
  plot self w =
    (inr tt,
     mkWorld (files w) (arrays w) (objects w)
       (canvas w ++ [Errorbar (deref w (times lc)) (deref w (fluxes lc))
                              (deref w (uncertainties lc));
                     Xlabel "Time"; Ylabel "Flux"; Title (name lc)])).
Proof.
  intros Hself Hok. unfold plot, bind, get_object, errorbar, draw, set_canvas.
  rewrite Hself, Hok. simpl. by rewrite <- !app_assoc.
Qed.

Lemma plot_raises w self lc e :
  objects w !! self = Some lc →
  errorbar_raises (deref w (times lc)) (deref w (fluxes lc))
                  (deref w (uncertainties lc)) = Some e →
  plot self w = (inl e, w).
Proof.
  intros Hself Hbad. unfold plot, bind, get_object, errorbar.
  by rewrite Hself, Hbad.
Qed.

(** A completed [plot] has issued four calls. *)
Lemma plot_completes w self w' :
  plot self w = (inr tt, w') →
  objects w' = objects w ∧ length (canvas w') = length (canvas w) + 4.
Proof.
  unfold plot, bind, get_object, errorbar.
  destruct (objects w !! self) as [lc|]; [|done].
  destruct (errorbar_raises _ _ _); [done|]. simpl.
  intros [= <-]. simpl. split; [done|]. rewrite !length_app. simpl. lia.
Qed.

(** [lc0 = LightCurve.from_txt(path); lc0.plot()]: [plt.errorbar]
    receives rows 0, 1 and 2 of the table.  If it accepts them, the plot
    of the loaded record consists of that call, the axis labels 'Time'
    and 'Flux', and the title [None], since [from_txt] sets no name.  If
    it raises (as it does on a negative uncertainty), [plot] raises the
    same exception and issues no call at all.  Either way plotting
    changes no record and no array. *)
Theorem load_then_plot w path r0 r1 r2 r3 rest n :
  files w !! path = Some (table_text (r0 :: r1 :: r2 :: r3 :: rest)) →
  Forall (λ r, length r = n) (r0 :: r1 :: r2 :: r3 :: rest) →
  2 ≤ n →
  ∃ self w1,
    from_txt path w = (inr self, w1) ∧
    match errorbar_raises (Some r0) (Some r1) (Some r2) with
    | None =>
        ∃ w2,
          plot self w1 = (inr tt, w2) ∧
          canvas w2 = canvas w ++ [Errorbar (Some r0) (Some r1) (Some r2);
                                   Xlabel "Time"; Ylabel "Flux"; Title None] ∧
          arrays w2 = arrays w1 ∧ objects w2 = objects w1
    | Some e => plot self w1 = (inl e, w1)
    end.
Proof.
  intros Hfile Hall Hn.
  destruct (from_txt_accepts w path r0 r1 r2 r3 rest n Hfile Hall Hn)
    as (self & lc & w1 & Hrun & _ & Hobj & Ht & Hf & Hu & _ & _ & _ & Hname & _).
  destruct (from_txt_effect w path) as (_ & _ & _ & Hcanvas).
  rewrite Hrun in Hcanvas. simpl in Hcanvas.
  assert (Hself : objects w1 !! self = Some lc)
    by (by rewrite Hobj, lookup_insert_eq).
  exists self, w1. split; [done|].
  destruct (errorbar_raises (Some r0) (Some r1) (Some r2)) as [e|] eqn:Hplt.
  - apply (plot_raises w1 self lc e Hself). by rewrite Ht, Hf, Hu.
  - eexists. split.
    + apply (plot_runs w1 self lc Hself). by rewrite Ht, Hf, Hu.
    + simpl. by rewrite Ht, Hf, Hu, Hname, Hcanvas.
Qed.

(** ** The batch cells *)

Lemma load_all_effect w lc_paths :
  objects w ⊆ objects (load_all lc_paths w).2 ∧
  arrays w ⊆ arrays (load_all lc_paths w).2 ∧
  files (load_all lc_paths w).2 = files w.
Proof.
  revert w. induction lc_paths as [|path rest IH]; intros w; [done|].
  simpl. unfold bind.
  destruct (from_txt_effect w path) as (Ho & Ha & Hf & _).
  destruct (from_txt path w) as [[e|o] w1]; simpl in *; [done|].
  destruct (IH w1) as (Ho' & Ha' & Hf').
  destruct (load_all rest w1) as [[e|os] w2]; simpl in *;
    (split_and!; [by etrans|by etrans|congruence]).
Qed.

(** The comprehension yields its list exactly when every path, taken by
    itself, holds a numeric table with at least four rows and two
    columns: one bad file is enough to lose the whole batch. *)
Theorem load_all_succeeds_iff w lc_paths :
  (∃ lightcurves w', load_all lc_paths w = (inr lightcurves, w')) ↔
  Forall (loadable (files w)) lc_paths.
Proof.
  revert w. induction lc_paths as [|path rest IH]; intros w.
  { split; [by constructor|]. intros _. by exists [], w. }
  simpl. unfold bind. rewrite Forall_cons.
  rewrite <- (from_txt_runs_iff w path).
  destruct (from_txt_effect w path) as (_ & _ & Hf & _).
  destruct (from_txt path w) as [[e|o] w1] eqn:Hrun; simpl in *.
  { split; [by intros (? & ? & ?)|]. by intros ((? & ? & ?) & _). }
  rewrite <- Hf, <- (IH w1).
  destruct (load_all rest w1) as [[e|os] w2]; simpl.
  - split; [by intros (? & ? & ?)|]. by intros (_ & (? & ? & ?)).
  - split; [|by eauto]. intros _. split; by eauto.
Qed.

(** When the comprehension raises, it raises what [from_txt] raises on
    the first path that cannot be loaded. *)
Theorem load_all_first_error w lc_paths e w' :
  load_all lc_paths w = (inl e, w') →
  ∃ pre path post,
    lc_paths = pre ++ path :: post ∧
    Forall (loadable (files w)) pre ∧
    from_txt path w = (inl e, w).
Proof.
  revert w. induction lc_paths as [|path rest IH]; intros w; [done|].
  simpl. unfold bind.
  destruct (from_txt_effect w path) as (_ & _ & Hf & _).
  destruct (from_txt path w) as [[e1|o] w1] eqn:Hrun; simpl in *.
  - intros [= <- <-]. exists [], path, rest. split_and!; [done|done|].
    apply (from_txt_error_files w w path _ _ eq_refl Hrun).
  - destruct (load_all rest w1) as [[e2|os] w2] eqn:Hrest; [|done].
    intros [= <- <-].
    destruct (IH w1 Hrest) as (pre & path' & post & -> & Hpre & Herr).
    exists (path :: pre), path', post. split_and!; [done| |].
    + constructor; [|by rewrite <- Hf].
      apply from_txt_runs_iff. by eauto.
    + apply (from_txt_error_files w w1 path' _ _ Hf Herr).
Qed.

Lemma seq_len_allocated w r n :
  seq_len w r n → ∃ l a, r = Some l ∧ arrays w !! l = Some a.
Proof.
  unfold seq_len, deref. destruct r as [l|]; simpl; [|done].
  destruct (arrays w !! l) as [a|] eqn:Ha; [|done]. intros _. by exists l, a.
Qed.

Lemma has_points_allocated w lc n r :
  has_points w lc n → r ∈ footprint lc →
  ∃ l a, r = Some l ∧ arrays w !! l = Some a.
Proof.
  intros (Ht & Hf & Hu & Hg) Hr.
  apply list_elem_of_In in Hr. simpl in Hr.
  destruct Hr as [<-|[<-|[<-|[<-|[]]]]]; by eapply seq_len_allocated.
Qed.

(** A loaded batch: one record per path, all of them new, different from
    each other, not yet cleaned and without a name, each with four
    sequences of one length held in four arrays that did not exist
    before; and no two records of the batch share an array. *)
Theorem load_all_records w lc_paths lightcurves w' :
  load_all lc_paths w = (inr lightcurves, w') →
  length lightcurves = length lc_paths ∧
  NoDup lightcurves ∧
  Forall (λ o, objects w !! o = None ∧
               ∃ lc n, objects w' !! o = Some lc ∧ has_points w' lc n ∧
                       2 ≤ n ∧ cleaned lc = false ∧ name lc = None ∧
                       NoDup (footprint lc) ∧
                       ∀ r, r ∈ footprint lc →
                            ∃ l, r = Some l ∧ arrays w !! l = None)
         lightcurves ∧
  (∀ i j o1 o2 lc1 lc2,
     i ≠ j → lightcurves !! i = Some o1 → lightcurves !! j = Some o2 →
     objects w' !! o1 = Some lc1 → objects w' !! o2 = Some lc2 →
     ∀ r, r ∈ footprint lc1 → r ∉ footprint lc2).
Proof.
  revert w lightcurves w'.
  induction lc_paths as [|path rest IH]; intros w lcs w'.
  { intros [= <- <-]. split_and!; [done|constructor|constructor|].
    by intros ?????? _ ?. }
  simpl. unfold bind.
  destruct (from_txt path w) as [[e|o] w1] eqn:Hrun; [done|].
  destruct (load_all rest w1) as [[e|os] w2] eqn:Hrest; [done|].
  intros [= <- <-].
  destruct (IH w1 os w2 Hrest) as (Hlen & Hnd & Hall & Hdisj).
  destruct (from_txt_fresh w path o w1 Hrun)
    as (Hnew & lc & n & Hobj & Hpts & Hn & Hcl & Hnm & Hfp & Hfresh).
  destruct (from_txt_effect w path) as (Hsub_o & Hsub_a & _).
  rewrite Hrun in Hsub_o, Hsub_a. simpl in Hsub_o, Hsub_a.
  destruct (load_all_effect w1 rest) as (Hsub_o' & Hsub_a' & _).
  rewrite Hrest in Hsub_o', Hsub_a'. simpl in Hsub_o', Hsub_a'.
  assert (Ho1 : objects w1 !! o = Some lc) by (by rewrite Hobj, lookup_insert_eq).
  assert (Ho2 : objects w2 !! o = Some lc) by (by eapply lookup_weaken).
  rewrite Forall_forall in Hall.
  assert (Hsep : ∀ o' lc', o' ∈ os → objects w2 !! o' = Some lc' →
                 ∀ r, r ∈ footprint lc → r ∉ footprint lc').
  { intros o' lc' Hin Hlc' r Hr Hr'.
    destruct (Hall o' Hin) as (_ & lc'' & ? & Hlc'' & _ & _ & _ & _ & _ & Hfr).
    assert (lc'' = lc') as -> by congruence.
    destruct (Hfr r Hr') as (l & -> & Hnone).
    destruct (has_points_allocated w1 lc n (Some l) Hpts Hr)
      as (l' & a & [= <-] & Hsome).
    congruence. }
  split_and!.
  - simpl. by rewrite Hlen.
  - apply NoDup_cons. split; [|done].
    intros Hin. destruct (Hall o Hin) as (Hnone & _). congruence.
  - apply Forall_cons. split.
    + split; [done|]. exists lc, n. split_and!; try done.
      destruct Hpts as (? & ? & ? & ?).
      split_and!; by eapply seq_len_weaken.
    + apply Forall_forall. intros o' Hin.
      destruct (Hall o' Hin)
        as (Hnone & lc' & n' & Hlc' & Hpts' & ? & ? & ? & ? & Hfr).
      split.
      { destruct (objects w !! o') as [x|] eqn:Hx; [|done].
        by rewrite (lookup_weaken _ _ _ _ Hx Hsub_o) in Hnone. }
      exists lc', n'. split_and!; try done.
      intros r Hr. destruct (Hfr r Hr) as (l & -> & Hl).
      exists l. split; [done|].
      destruct (arrays w !! l) as [x|] eqn:Hx; [|done].
      by rewrite (lookup_weaken _ _ _ _ Hx Hsub_a) in Hl.
  - intros [|i] [|j] o1 o2 lc1 lc2 Hij; simpl; [done|..].
    + intros [= <-] Hj Hlc1 Hlc2.
      assert (lc1 = lc) as -> by congruence.
      apply (Hsep o2 lc2); [|done]. by eapply list_elem_of_lookup_2.
    + intros Hi [= <-] Hlc1 Hlc2 r Hr Hr'.
      assert (lc2 = lc) as -> by congruence.
      by apply (Hsep o1 lc1 (list_elem_of_lookup_2 _ _ _ Hi) Hlc1 r Hr').
    + intros Hi Hj. apply (Hdisj i j); [congruence|done..].
Qed.

(** The loop that cleans and plots every record of a list, when it
    completes: every record of the list is marked cleaned, and four
    plotting calls per record were issued.  *)
Theorem clean_and_plot_all_cleans w lightcurves w' :
  clean_and_plot_all lightcurves w = (inr tt, w') →
  Forall (λ o, cleaned <$> objects w' !! o = Some true) lightcurves ∧
  length (canvas w') = length (canvas w) + 4 * length lightcurves.
Proof.
  assert (Hmono : ∀ lcs w o,
            cleaned <$> objects w !! o = Some true →
            cleaned <$> objects (clean_and_plot_all lcs w).2 !! o
            = Some true).
  { induction lcs as [|o' lcs IH]; intros w0 o Ho; [done|].
    simpl. unfold bind.
    destruct (clean_cleaned w0 o' 1) as (Hkeep & _).
    specialize (Hkeep o Ho).
    destruct (clean o' 1 w0) as [[e|[]] w1]; simpl in *; [done|].
    destruct (plot_effect w1 o') as (_ & _ & Hobj).
    destruct (plot o' w1) as [[e|[]] w2]; simpl in *; [by rewrite Hobj|].
    apply IH. by rewrite Hobj. }
  revert w. induction lightcurves as [|o lcs IH]; intros w.
  { intros [= <-]. split; [constructor|simpl; lia]. }
  simpl. unfold bind.
  destruct (clean_cleaned w o 1) as (_ & Hset).
  destruct (clean_effect w o 1) as (_ & Hcanvas & _).
  destruct (clean o 1 w) as [[e|[]] w1] eqn:Hclean; simpl in *; [done|].
  specialize (Hset eq_refl).
  destruct (plot o w1) as [[e|[]] w2] eqn:Hplot; [done|].
  destruct (plot_completes w1 o w2 Hplot) as (Hobj2 & Hlen2).
  intros Hrest.
  destruct (IH w2 Hrest) as (Hall & Hlen).
  split.
  - constructor; [|done].
    pose proof (Hmono lcs w2 o) as Ho. rewrite Hrest in Ho. apply Ho.
    by rewrite Hobj2.
  - rewrite Hlen, Hlen2, Hcanvas. simpl. lia.
Qed.

End Properties.

(** * Concrete light curves, evaluated in exact arithmetic *)

Section Concrete.
Local Open Scope Q_scope.

(** ** Loading *)

(** C1, counterexample.  A table with exactly four rows of one column:
    [loadtxt] returns a one-dimensional array of four numbers, and
    [data[0, :]] raises [IndexError]; no LightCurve is returned. *)
Lemma from_txt_single_column_fails :
  from_txt "lc_0.txt" (a_file "lc_0.txt" one_point_table)
  = (inl IndexError, a_file "lc_0.txt" one_point_table).
Proof. vm_compute. reflexivity. Qed.

Lemma from_txt_four_rows_witness :
  ∃ self lc w',
    from_txt "lc_0.txt" w_flat = (inr self, w') ∧
    objects w' !! self = Some lc ∧
    deref w' (times lc) = Some [0; 1; 2] ∧
    deref w' (fluxes lc) = Some [1; 1; 1] ∧
    deref w' (uncertainties lc) = Some [1 # 10; 1 # 10; 1 # 10] ∧
    deref w' (flags lc) = Some [0; 0; 0] ∧
    cleaned lc = false ∧ name lc = None.
Proof.
  destruct (from_txt_four_rows w_flat "lc_0.txt"
              [0; 1; 2] [1; 1; 1] [1 # 10; 1 # 10; 1 # 10] [0; 0; 0] 3)
    as (self & lc & w' & Hrun & _ & Hobj & Ht & Hf & Hu & Hg & _ & Hc & Hn);
    [reflexivity..|lia|].
  by exists self, lc, w'.
Defined.

(** C3, counterexample.  A table with five rows does not parse into a
    table with four rows, and yet [from_txt] loads it. *)
Lemma five_rows_table_is_loaded :
  (∀ c, ¬ parses_as (table_text five_rows) 4 c) ∧
  ∃ w', from_txt "lc_0.txt" (a_file "lc_0.txt" five_rows)
        = (inr 1%positive, w').
Proof.
  split.
  - intros c (tbl & Htbl & Hlen & _). vm_compute in Htbl.
    injection Htbl as <-. discriminate Hlen.
  - eexists. vm_compute. reflexivity.
Qed.

Lemma from_txt_rejects_witness :
  ∃ e, from_txt "lc_0.txt" (a_file "lc_0.txt" three_rows)
       = (inl e, a_file "lc_0.txt" three_rows) ∧
       (e = OSError ∨ e = ValueError ∨ e = IndexError).
Proof.
  apply (from_txt_rejects (a_file "lc_0.txt" three_rows) "lc_0.txt").
  intros lines r c Hfile (tbl & Htbl & Hlen & _).
  vm_compute in Hfile. injection Hfile as <-.
  vm_compute in Htbl. injection Htbl as <-.
  left. simpl in Hlen. lia.
Defined.

(** C10, counterexample.  A table with five rows of one column: the
    array is one-dimensional and [from_txt] fails. *)
Lemma five_rows_one_column_fails :
  from_txt "lc_0.txt" (a_file "lc_0.txt" five_rows_one_column)
  = (inl IndexError, a_file "lc_0.txt" five_rows_one_column).
Proof. vm_compute. reflexivity. Qed.

Lemma from_txt_extra_rows_witness :
  ∃ self lc w',
    from_txt "lc_0.txt" (a_file "lc_0.txt" five_rows) = (inr self, w') ∧
    objects w' !! self = Some lc ∧
    deref w' (times lc) = Some [0; 1] ∧
    deref w' (fluxes lc) = Some [1; 1] ∧
    deref w' (uncertainties lc) = Some [1 # 10; 1 # 10] ∧
    deref w' (flags lc) = Some [0; 0].
Proof.
  destruct (from_txt_extra_rows (a_file "lc_0.txt" five_rows) "lc_0.txt"
              [0; 1] [1; 1] [1 # 10; 1 # 10] [0; 0] [7; 7] [] 2)
    as (self & lc & w' & Hrun & Hobj & Ht & Hf & Hu & Hg & _);
    [reflexivity| |lia|].
  { repeat constructor. }
  by exists self, lc, w'.
Defined.

(** C5, counterexample.  A light curve with a single observation: the
    table written from it has four rows of one column, and loading it
    fails. *)
Lemma round_trip_single_point_fails :
  has_points w_one (record 1 2 3 4) 1 ∧
  (to_txt 1 "lc_0.txt" w_one).1 = inr tt ∧
  (from_txt "lc_0.txt" (to_txt 1 "lc_0.txt" w_one).2).1 = inl IndexError.
Proof. split_and!; [repeat split|reflexivity|vm_compute; reflexivity]. Qed.

Lemma round_trip_witness :
  ∃ w1 new lc' w2,
    to_txt 1 "lc_0.txt" w_two = (inr tt, w1) ∧
    from_txt "lc_0.txt" w1 = (inr new, w2) ∧
    objects w2 !! new = Some lc' ∧
    deref w2 (times lc') = Some [0; 1] ∧
    deref w2 (fluxes lc') = Some [2; 4] ∧
    deref w2 (uncertainties lc') = Some [1; 1] ∧
    deref w2 (flags lc') = Some [0; 0].
Proof.
  apply (round_trip w_two 1 (record 1 2 3 4) 2 "lc_0.txt");
    [reflexivity|repeat split|reflexivity..|lia].
Defined.

(** ** Detrending *)

(** The fits used below are least-squares fits. *)
Example fits_are_least_squares :
  Forall (λ '(x, y, deg, c),
            polyfit x y deg = inr c ∧
            normal_equations (vander x (Z.to_nat (deg + 1))) y c = true)
    [([0; 1; 2], [1; 1; 1], 0%Z, [1]);
     ([0; 1; 2], [1; 1; 1], 1%Z, [0; 1]);
     ([0; 1], [2; 4], 1%Z, [2; 2]);
     ([0; 1], [2; 4], 2%Z, [1; 1; 2]);
     ([0; 1], [2; 2], 0%Z, [2]);
     ([2; 4], [2; 4], 0%Z, [3]);
     ([0], [2], 0%Z, [2]);
     ([0], [1], 0%Z, [1])].
Proof.
  repeat (constructor; [split; vm_compute; reflexivity|]). constructor.
Qed.

(** C2, counterexample.  When one array serves as fluxes and as
    uncertainties it is divided twice: the fluxes end as [2/2/2], not as
    the old fluxes over the model, [2/2]. *)
Lemma clean_shared_buffer_divides_twice :
  has_points w_shared_fluxes (record 1 2 2 3) 2 ∧
  polyfit [0; 1] [2; 2] 0 = inr [2] ∧
  zip_with fdiv [2; 2] (polyval [2] [0; 1]) = [1; 1] ∧
  (clean 1 0 w_shared_fluxes).1 = inr tt ∧
  deref (clean 1 0 w_shared_fluxes).2 (Some 2%positive) = Some [1 # 2; 1 # 2].
Proof. split_and!; [repeat split|vm_compute; reflexivity..]. Qed.

Lemma clean_divides_by_model_witness :
  ∃ w' lc',
    clean 1 1 w_two = (inr tt, w') ∧
    objects w' !! 1%positive = Some lc' ∧
    cleaned lc' = true ∧
    deref w' (fluxes lc') = Some (zip_with fdiv [2; 4] (polyval [2; 2] [0; 1])) ∧
    deref w' (uncertainties lc')
      = Some (zip_with fdiv [1; 1] (polyval [2; 2] [0; 1])).
Proof.
  destruct (clean_divides_by_model w_two 1 (record 1 2 3 4) 2
              [0; 1] [2; 4] [1; 1] 1 [2; 2])
    as (w' & lc' & f' & u' & Hrun & Hobj & Hc & Hf & Hu & -> & -> & _);
    [reflexivity|repeat split|reflexivity..|discriminate|lia|
     vm_compute; reflexivity|].
  by exists w', lc'.
Defined.



Lemma lengths_preserved_witness :
  ∃ lc', objects (clean 1 1 w_two).2 !! 1%positive = Some lc' ∧
         has_points (clean 1 1 w_two).2 lc' 2.
Proof.
  destruct (lengths_preserved w_two 1 (record 1 2 3 4) 2 "lc_0.txt" 1 1)
    as (_ & _ & Hclean); [reflexivity|repeat split|].
  exact Hclean.
Defined.

(** C8, counterexample.  When one array serves as times and as fluxes,
    [clean] changes the times. *)
Lemma clean_shared_times_changes_times :
  times (record 1 1 2 3) = fluxes (record 1 1 2 3) ∧
  deref w_shared_times (times (record 1 1 2 3)) = Some [2; 4] ∧
  (clean 1 0 w_shared_times).1 = inr tt ∧
  deref (clean 1 0 w_shared_times).2 (times (record 1 1 2 3))
    = Some [2 # 3; 4 # 3].
Proof. split_and!; vm_compute; reflexivity. Qed.

Lemma clean_frame_witness :
  deref (clean 1 1 w_two).2 (Some 1%positive) = Some [0; 1] ∧
  deref (clean 1 1 w_two).2 (Some 4%positive) = Some [0; 0] ∧
  objects (from_txt "lc_0.txt" w_two).2 !! 1%positive
    = Some (record 1 2 3 4).
Proof.
  destruct (clean_frame w_two 1 (record 1 2 3 4) 1 "lc_0.txt"
              None None None None None)
    as ((_ & _ & _ & Ht & Hg) & _ & (Hload & _) & _); [reflexivity|].
  split_and!.
  - exact (Ht ltac:(discriminate) ltac:(discriminate)).
  - exact (Hg ltac:(discriminate) ltac:(discriminate)).
  - apply (lookup_weaken _ _ _ _ (eq_refl : objects w_two !! 1%positive = _)
             Hload).
Defined.

(** C9, counterexample.  One observation, [times = [0]], [fluxes = [2]],
    [uncertainties = [1]]: detrending with order 0 divides by 2; the
    record is then detrended, and detrending it again with order 0 fits
    the constant 1 and leaves the whole state, fluxes and uncertainties
    included, exactly as it was.  (Every operation involved is exact in
    float64 as well.) *)
Lemma reclean_is_noop :
  (clean 1 0 w_single).1 = inr tt ∧
  cleaned <$> objects w_single_cleaned !! 1%positive = Some true ∧
  deref w_single_cleaned (Some 2%positive) = Some [1] ∧
  deref w_single_cleaned (Some 3%positive) = Some [1 # 2] ∧
  polyfit [0] [1] 0 = inr [1] ∧
  clean 1 0 w_single_cleaned = (inr tt, w_single_cleaned).
Proof. split_and!; vm_compute; reflexivity. Qed.

Lemma clean_again_witness :
  cleaned <$> objects w_curved_cleaned !! 1%positive = Some true ∧
  ∃ w',
    clean 1 1 w_curved_cleaned = (inr tt, w') ∧
    cleaned <$> objects w' !! 1%positive = Some true ∧
    deref w' (Some 2%positive)
      = Some (zip_with fdiv [6 # 5; 6 # 7; 24 # 23]
                (polyval [-9 # 115; 179 # 161] [0; 1; 2])) ∧
    deref w' (Some 3%positive)
      = Some (zip_with fdiv [6 # 5; 3 # 7; 6 # 23]
                (polyval [-9 # 115; 179 # 161] [0; 1; 2])) ∧
    w' ≠ w_curved_cleaned.
Proof.
  split; [vm_compute; reflexivity|].
  destruct (clean_again w_curved_cleaned 1
              (mkLightCurve (Some 1%positive) (Some 2%positive)
                 (Some 3%positive) (Some 4%positive) None true)
              3 [0; 1; 2] [6 # 5; 6 # 7; 24 # 23] [6 # 5; 3 # 7; 6 # 23] 1
              [-9 # 115; 179 # 161])
    as (w' & Hrun & Hobj & Hf & Hu & Hiff);
    [vm_compute; reflexivity|reflexivity|repeat split|
     vm_compute; reflexivity..|discriminate|vm_compute; reflexivity|].
  exists w'. split_and!; [done|by rewrite Hobj|done|done|].
  intros Heq. apply Hiff in Heq as (Hsame & _).
  vm_compute in Hsame. discriminate Hsame.
Defined.

(** ** Further properties, on concrete light curves *)

Lemma from_txt_succeeds_iff_witness : loadable (files w_flat) "lc_0.txt".
Proof.
  apply (proj1 (proj1 (from_txt_succeeds_iff w_flat "lc_0.txt"))).
  exists 1%positive, w_flat_loaded. vm_compute. reflexivity.
Defined.

Lemma from_txt_error_kinds_witness :
  ∃ r c, parses_as (table_text three_rows) r c ∧ (r < 4 ∨ c < 2)%nat.
Proof.
  destruct (from_txt_error_kinds (a_file "lc_0.txt" three_rows) "lc_0.txt"
              IndexError (a_file "lc_0.txt" three_rows))
    as (_ & [(Hbad & _)|(lines & Hfile & [(Hbad & _)|(_ & Hshape)])]);
    [vm_compute; reflexivity|discriminate Hbad|discriminate Hbad|].
  vm_compute in Hfile. injection Hfile as <-. exact Hshape.
Defined.

Lemma clean_failure_effect_witness :
  objects (clean 1 (-1) w_two).2 = objects w_two.
Proof.
  destruct (clean_failure_effect w_two 1 (-1) ValueError (clean 1 (-1) w_two).2)
    as (Hobj & _); [vm_compute; reflexivity|].
  exact Hobj.
Defined.

Lemma clean_without_uncertainties_witness :
  clean 1 1 w_no_uncertainties
  = (inl TypeError,
     mkWorld (files w_no_uncertainties)
       (<[2%positive := zip_with fdiv [2; 4] (polyval [2; 2] [0; 1])]>
          (arrays w_no_uncertainties))
       (objects w_no_uncertainties) (canvas w_no_uncertainties)).
Proof.
  apply (clean_without_uncertainties w_no_uncertainties 1
           (mkLightCurve (Some 1%positive) (Some 2%positive) None None None
                         false)
           2 [0; 1] [2; 4] 1 [2; 2]);
    [reflexivity..|vm_compute; reflexivity].
Defined.

Lemma clean_uncertainties_wrong_length_witness :
  clean 1 1 w_short_uncertainties
  = (inl ValueError,
     mkWorld (files w_short_uncertainties)
       (<[2%positive := zip_with fdiv [2; 4; 6] (polyval [2; 2] [0; 1; 2])]>
          (arrays w_short_uncertainties))
       (objects w_short_uncertainties) (canvas w_short_uncertainties)).
Proof.
  apply (clean_uncertainties_wrong_length w_short_uncertainties 1
           (mkLightCurve (Some 1%positive) (Some 2%positive)
                         (Some 3%positive) None None false)
           2 3 [0; 1; 2] [2; 4; 6] [1; 1] 1 [2; 2]);
    [reflexivity..|discriminate|simpl; lia|simpl; lia|vm_compute; reflexivity].
Defined.

Lemma clean_succeeds_iff_witness :
  ∃ w', clean 1 2 w_two = (inr tt, w').
Proof.
  apply (proj2 (clean_succeeds_iff w_two 1 (record 1 2 3 4)
                  [0; 1] [2; 4] [1; 1] 2
                  eq_refl eq_refl eq_refl eq_refl)).
  split_and!; [lia|simpl; lia|reflexivity|vm_compute; eauto|left; reflexivity].
Defined.

Lemma clean_other_record_witness :
  objects (clean 1 1 w_pair).2 !! 2%positive = Some (record 5 6 7 8) ∧
  Forall (λ r, deref (clean 1 1 w_pair).2 r = deref w_pair r)
         (footprint (record 5 6 7 8)).
Proof.
  apply (clean_other_record w_pair 1 (record 1 2 3 4) 2 (record 5 6 7 8) 1);
    [reflexivity|reflexivity|discriminate|].
  intros l Hl. apply list_elem_of_In in Hl. simpl in Hl.
  destruct Hl as [[= <-]|[[= <-]|[[= <-]|[[= <-]|[]]]]]; split; discriminate.
Defined.

Lemma init_shares_arrays_witness :
  ∃ self w1 w2,
    __init__ (Some 1%positive) (Some 2%positive) (Some 3%positive)
             (Some 4%positive) (Some "proxima Centauri"%string) w_two
    = (inr self, w1) ∧
    clean self 1 w1 = (inr tt, w2) ∧
    arrays w2 !! 2%positive
    = Some (zip_with fdiv [2; 4] (polyval [2; 2] [0; 1])) ∧
    objects w2 !! 1%positive = Some (record 1 2 3 4).
Proof.
  destruct (init_shares_arrays w_two 1 2 3 (Some 4%positive)
              (Some "proxima Centauri"%string) [0; 1] [2; 4] [1; 1] 1 [2; 2])
    as (self & w1 & w2 & Hinit & _ & _ & Hclean & Hf & _ & Hrest);
    [reflexivity..|discriminate|reflexivity|vm_compute; reflexivity|].
  exists self, w1, w2. split_and!; [done..|].
  by apply Hrest.
Defined.

Lemma cleaned_never_reset_witness :
  cleaned <$> objects (clean 1 (-1) w_flat_cleaned).2 !! 1%positive
  = Some true.
Proof.
  destruct (cleaned_never_reset w_flat_cleaned 1 1 (-1) "lc_0.txt"
              None None None None None)
    as (Hclean & _); [vm_compute; reflexivity|].
  exact Hclean.
Defined.

Lemma load_then_plot_witness :
  (∃ self w1 w2,
     from_txt "lc_0.txt" w_flat = (inr self, w1) ∧
     plot self w1 = (inr tt, w2) ∧
     canvas w2 = [Errorbar (Some [0; 1; 2]) (Some [1; 1; 1])
                           (Some [1 # 10; 1 # 10; 1 # 10]);
                  Xlabel "Time"; Ylabel "Flux"; Title None]) ∧
  (∃ self w1,
     from_txt "lc_0.txt" (a_file "lc_0.txt" negative_uncertainty)
     = (inr self, w1) ∧
     plot self w1 = (inl ValueError, w1)).
Proof.
  split.
  - destruct (load_then_plot w_flat "lc_0.txt"
                [0; 1; 2] [1; 1; 1] [1 # 10; 1 # 10; 1 # 10] [0; 0; 0] [] 3)
      as (self & w1 & Hload & w2 & Hplot & Hcanvas & _);
      [reflexivity|repeat constructor|lia|].
    by exists self, w1, w2.
  - destruct (load_then_plot (a_file "lc_0.txt" negative_uncertainty)
                "lc_0.txt"
                [0; 1; 2] [1; 1; 1] [1 # 10; -1 # 10; 1 # 10] [0; 0; 0] [] 3)
      as (self & w1 & Hload & Hplot);
      [reflexivity|repeat constructor|lia|].
    by exists self, w1.
Defined.

Lemma load_all_succeeds_iff_witness :
  Forall (loadable (files w_batch)) batch_paths.
Proof.
  apply (proj1 (load_all_succeeds_iff w_batch batch_paths)).
  exists [1; 2; 3]%positive, w_batch_loaded. vm_compute. reflexivity.
Defined.

Lemma load_all_first_error_witness :
  ∃ pre path post,
    ["lc_0.txt"; "missing.txt"; "lc_1.txt"]%string = pre ++ path :: post ∧
    Forall (loadable (files w_batch)) pre ∧
    from_txt path w_batch = (inl OSError, w_batch).
Proof.
  apply (load_all_first_error w_batch
           ["lc_0.txt"; "missing.txt"; "lc_1.txt"]%string OSError
           (load_all ["lc_0.txt"; "missing.txt"; "lc_1.txt"]%string w_batch).2).
  vm_compute. reflexivity.
Defined.

Lemma load_all_records_witness :
  NoDup [1; 2; 3]%positive ∧
  ∀ i j o1 o2 lc1 lc2,
    i ≠ j → [1; 2; 3]%positive !! i = Some o1 →
    [1; 2; 3]%positive !! j = Some o2 →
    objects w_batch_loaded !! o1 = Some lc1 →
    objects w_batch_loaded !! o2 = Some lc2 →
    ∀ r, r ∈ footprint lc1 → r ∉ footprint lc2.
Proof.
  destruct (load_all_records w_batch batch_paths [1; 2; 3]%positive
              w_batch_loaded)
    as (_ & Hnd & _ & Hdisj); [vm_compute; reflexivity|].
  by split.
Defined.

Lemma clean_and_plot_all_cleans_witness :
  Forall (λ o, cleaned <$> objects
                 (clean_and_plot_all [1; 2; 3]%positive w_batch_loaded).2 !! o
               = Some true)
         [1; 2; 3]%positive.
Proof.
  destruct (clean_and_plot_all_cleans w_batch_loaded [1; 2; 3]%positive
              (clean_and_plot_all [1; 2; 3]%positive w_batch_loaded).2)
    as (Hall & _); [vm_compute; reflexivity|].
  exact Hall.
Defined.

End Concrete.
